(** * Verification of the intelligent-web-scraper orchestration core

    A shallow embedding of

    - [scripts/progress_manager.py]   (ProgressState, ProgressManager),
    - [scripts/crawl4ai_wrapper.py]   (ExperienceManager, BlockLevel,
                                       AdaptiveRateLimiter),
    - [scripts/concurrent_scraper.py] (TokenBucketRateLimiter,
                                       DomainSemaphoreManager,
                                       ConcurrentScraper._scrape_single),

    followed by the theorems relating the specification to that code.

    Conventions of the embedding.
    - Python [int] is [Z]; Python [float] is an exact rational [Q] (no
      rounding is modelled; none of the properties below is about rounding).
    - Python [str] is [string]; URLs are taken to be ASCII.
    - A Python [dict] is an association list in insertion order with unique
      keys ([dget], [dset]); a Python [set] of strings is a [gset string].
    - [datetime.now().isoformat()] and [time.monotonic()] are read from the
      environment: every function takes the value of the clock it reads as
      an explicit argument.
    - A method that mutates [self] is a function from the old object to the
      new one; a method that may raise returns an [outcome]. *)

From Stdlib Require Import ZArith QArith Qminmax Lia Lqa Ascii.
From stdpp Require Import base gmap sets list strings.

Set Warnings "-clear-no-such-hyp".

Local Open Scope string_scope.
Local Open Scope list_scope.
Local Open Scope Z_scope.

(* ===================================================================== *)
(** * Python values and insertion-ordered dictionaries                    *)
(* ===================================================================== *)

(** The JSON-shaped values that the scripts store in their dictionaries. *)
#[warnings="-register-all"]
Inductive pyval : Type :=
| PNone
| PBool (b : bool)
| PInt (z : Z)
| PFloat (q : Q)
| PStr (s : string)
| PList (l : list pyval)
| PDict (d : list (string * pyval)).

Abbreviation pydict := (list (string * pyval)).

Section OrderedDict.
Context {V : Type}.

(** [d.get(k)] / [d[k]] *)
Fixpoint dget (k : string) (d : list (string * V)) : option V :=
  match d with
  | [] => None
  | (k', v) :: r => if decide (k = k') then Some v else dget k r
  end.

(** [k in d] *)
Definition dmem (k : string) (d : list (string * V)) : bool :=
  match dget k d with Some _ => true | None => false end.

(** [d[k] = v]: an existing key keeps its position, a new key goes last. *)
Fixpoint dset (k : string) (v : V) (d : list (string * V)) : list (string * V) :=
  match d with
  | [] => [(k, v)]
  | (k', v') :: r =>
      if decide (k = k') then (k, v) :: r else (k', v') :: dset k v r
  end.
End OrderedDict.

(** Truth value of an [Optional[Dict]] argument, as tested by [if data:]. *)
Definition truthy_dict (data : option pydict) : bool :=
  match data with
  | None => false
  | Some [] => false
  | Some (_ :: _) => true
  end.

(* ===================================================================== *)
(** * progress_manager.py                                                 *)
(* ===================================================================== *)

Module Progress.

(** [@dataclass class ProgressState] *)
Record ProgressState : Type := mkProgressState {
  task_id : string;
  start_url : string;
  created_at : string;
  updated_at : string;
  status : string;
  total_urls : Z;
  completed_urls : Z;
  failed_urls : Z;
  current_page : Z;
  urls_to_scrape : list string;
  completed_url_list : list string;
  failed_url_list : list string;
  scraped_data : list pydict;
  last_url : option string;
  next_url : option string;
  pagination_type : option string;
  last_error : option string;
  retry_count : Z;
  max_retries : Z;
  config : pydict;
  notes : string
}.

(** [ProgressState(task_id=..., start_url=...)] with the dataclass defaults;
    [now] is the clock read by the two [default_factory] lambdas. *)
Definition new_state (tid url now : string) : ProgressState :=
  {| task_id := tid; start_url := url;
     created_at := now; updated_at := now;
     status := "in_progress";
     total_urls := 0; completed_urls := 0; failed_urls := 0; current_page := 0;
     urls_to_scrape := []; completed_url_list := []; failed_url_list := [];
     scraped_data := [];
     last_url := None; next_url := None; pagination_type := None;
     last_error := None; retry_count := 0; max_retries := 3;
     config := []; notes := "" |}.

(** Field assignments [self.state.<field> = v] used by the methods below. *)
Definition with_updated_at (v : string) (s : ProgressState) : ProgressState :=
  mkProgressState (task_id s) (start_url s) (created_at s) v (status s)
    (total_urls s) (completed_urls s) (failed_urls s) (current_page s)
    (urls_to_scrape s) (completed_url_list s) (failed_url_list s)
    (scraped_data s) (last_url s) (next_url s) (pagination_type s)
    (last_error s) (retry_count s) (max_retries s) (config s) (notes s).

Definition with_worklist (urls : list string) (n : Z) (s : ProgressState) : ProgressState :=
  mkProgressState (task_id s) (start_url s) (created_at s) (updated_at s) (status s)
    n (completed_urls s) (failed_urls s) (current_page s)
    urls (completed_url_list s) (failed_url_list s)
    (scraped_data s) (last_url s) (next_url s) (pagination_type s)
    (last_error s) (retry_count s) (max_retries s) (config s) (notes s).

Definition with_completed (l : list string) (n : Z) (s : ProgressState) : ProgressState :=
  mkProgressState (task_id s) (start_url s) (created_at s) (updated_at s) (status s)
    (total_urls s) n (failed_urls s) (current_page s)
    (urls_to_scrape s) l (failed_url_list s)
    (scraped_data s) (last_url s) (next_url s) (pagination_type s)
    (last_error s) (retry_count s) (max_retries s) (config s) (notes s).

Definition with_failed (l : list string) (n : Z) (s : ProgressState) : ProgressState :=
  mkProgressState (task_id s) (start_url s) (created_at s) (updated_at s) (status s)
    (total_urls s) (completed_urls s) n (current_page s)
    (urls_to_scrape s) (completed_url_list s) l
    (scraped_data s) (last_url s) (next_url s) (pagination_type s)
    (last_error s) (retry_count s) (max_retries s) (config s) (notes s).

Definition with_scraped_data (l : list pydict) (s : ProgressState) : ProgressState :=
  mkProgressState (task_id s) (start_url s) (created_at s) (updated_at s) (status s)
    (total_urls s) (completed_urls s) (failed_urls s) (current_page s)
    (urls_to_scrape s) (completed_url_list s) (failed_url_list s)
    l (last_url s) (next_url s) (pagination_type s)
    (last_error s) (retry_count s) (max_retries s) (config s) (notes s).

Definition with_last_url (u : option string) (s : ProgressState) : ProgressState :=
  mkProgressState (task_id s) (start_url s) (created_at s) (updated_at s) (status s)
    (total_urls s) (completed_urls s) (failed_urls s) (current_page s)
    (urls_to_scrape s) (completed_url_list s) (failed_url_list s)
    (scraped_data s) u (next_url s) (pagination_type s)
    (last_error s) (retry_count s) (max_retries s) (config s) (notes s).

Definition with_last_error (e : option string) (s : ProgressState) : ProgressState :=
  mkProgressState (task_id s) (start_url s) (created_at s) (updated_at s) (status s)
    (total_urls s) (completed_urls s) (failed_urls s) (current_page s)
    (urls_to_scrape s) (completed_url_list s) (failed_url_list s)
    (scraped_data s) (last_url s) (next_url s) (pagination_type s)
    e (retry_count s) (max_retries s) (config s) (notes s).

Definition with_retry_count (n : Z) (s : ProgressState) : ProgressState :=
  mkProgressState (task_id s) (start_url s) (created_at s) (updated_at s) (status s)
    (total_urls s) (completed_urls s) (failed_urls s) (current_page s)
    (urls_to_scrape s) (completed_url_list s) (failed_url_list s)
    (scraped_data s) (last_url s) (next_url s) (pagination_type s)
    (last_error s) n (max_retries s) (config s) (notes s).

(** [class ProgressManager].  [progress_file] is the content of the JSON
    file of the task ([None] while the file does not exist). *)
Record ProgressManager : Type := mkProgressManager {
  auto_save : bool;
  save_interval : Z;
  _completions_since_save : Z;
  progress_file : option ProgressState;
  state : ProgressState;
  _completed_set : gset string
}.

Definition with_state (st : ProgressState) (pm : ProgressManager) : ProgressManager :=
  mkProgressManager (auto_save pm) (save_interval pm) (_completions_since_save pm)
    (progress_file pm) st (_completed_set pm).

Definition with_completed_set (cs : gset string) (pm : ProgressManager) : ProgressManager :=
  mkProgressManager (auto_save pm) (save_interval pm) (_completions_since_save pm)
    (progress_file pm) (state pm) cs.

Definition with_completions_since_save (n : Z) (pm : ProgressManager) : ProgressManager :=
  mkProgressManager (auto_save pm) (save_interval pm) n
    (progress_file pm) (state pm) (_completed_set pm).

(** [ProgressManager.__init__] once [task_id] is known: [on_disk] is what
    [_load] returns when the progress file exists. *)
Definition init (tid url : string) (autosave : bool) (interval : Z)
    (on_disk : option ProgressState) (now : string) : ProgressManager :=
  let st := match on_disk with
            | Some st => st
            | None => new_state tid url now
            end in
  {| auto_save := autosave; save_interval := interval;
     _completions_since_save := 0;
     progress_file := on_disk;
     state := st;
     _completed_set := list_to_set (completed_url_list st) |}.

(** [save]: stamp [updated_at] and rewrite the file. *)
Definition save (now : string) (pm : ProgressManager) : ProgressManager :=
  let st := with_updated_at now (state pm) in
  mkProgressManager (auto_save pm) (save_interval pm) (_completions_since_save pm)
    (Some st) st (_completed_set pm).

(** [_maybe_auto_save] *)
Definition _maybe_auto_save (now : string) (pm : ProgressManager) : ProgressManager :=
  if auto_save pm then
    let pm1 := with_completions_since_save (_completions_since_save pm + 1) pm in
    if Z.leb (save_interval pm1) (_completions_since_save pm1)
    then with_completions_since_save 0 (save now pm1)
    else pm1
  else pm.

(** [is_completed] and [is_failed] *)
Definition is_completed (url : string) (pm : ProgressManager) : bool :=
  bool_decide (url ∈ _completed_set pm).

Definition is_failed (url : string) (pm : ProgressManager) : bool :=
  bool_decide (url ∈ failed_url_list (state pm)).

(** [set_urls] *)
Definition set_urls (now : string) (urls : list string) (pm : ProgressManager) : ProgressManager :=
  _maybe_auto_save now
    (with_state (with_worklist urls (Z.of_nat (length urls)) (state pm)) pm).

(** [get_remaining_urls] *)
Definition get_remaining_urls (pm : ProgressManager) : list string :=
  filter (λ url, (url ∉ _completed_set pm) ∧ (url ∉ failed_url_list (state pm)))
         (urls_to_scrape (state pm)).

(** The metadata added to a result before it is appended:
    [data["_scraped_at"] = ...; data["_url"] = url]. *)
Definition stamp (scraped_at url : string) (data : pydict) : pydict :=
  dset "_url" (PStr url) (dset "_scraped_at" (PStr scraped_at) data).

(** [mark_completed(url, data)].  [scraped_at] is the clock read for the
    result's metadata, [now] the one read by the auto-save.  The stamped
    dictionary is stored by value: the caller in [_scrape_single] passes a
    dictionary literal built for that call. *)
Definition mark_completed (scraped_at now : string) (url : string)
    (data : option pydict) (pm : ProgressManager) : ProgressManager :=
  let pm1 :=
    if decide (url ∈ _completed_set pm) then pm
    else
      with_state
        (with_completed (completed_url_list (state pm) ++ [url])
                        (completed_urls (state pm) + 1) (state pm))
        (with_completed_set ({[url]} ∪ _completed_set pm) pm) in
  let pm2 :=
    with_state (with_retry_count 0 (with_last_url (Some url) (state pm1))) pm1 in
  let pm3 :=
    match data with
    | Some d =>
        if truthy_dict data
        then with_state
               (with_scraped_data
                  (scraped_data (state pm2) ++ [stamp scraped_at url d])
                  (state pm2)) pm2
        else pm2
    | None => pm2
    end in
  _maybe_auto_save now pm3.

(** [mark_failed(url, error)] *)
Definition mark_failed (now : string) (url error : string)
    (pm : ProgressManager) : ProgressManager :=
  let st := state pm in
  let st1 :=
    if decide (url ∈ failed_url_list st) then st
    else with_failed (failed_url_list st ++ [url]) (failed_urls st + 1) st in
  let st2 := with_retry_count (retry_count st1 + 1)
               (with_last_error (Some error) st1) in
  _maybe_auto_save now (with_state st2 pm).

(** A call of one of the two marking methods, with the clock values it reads. *)
Inductive call : Type :=
| MarkCompleted (scraped_at now url : string) (data : option pydict)
| MarkFailed (now url error : string).

Definition do_call (c : call) (pm : ProgressManager) : ProgressManager :=
  match c with
  | MarkCompleted t now url data => mark_completed t now url data pm
  | MarkFailed now url err => mark_failed now url err pm
  end.

(** The calls of a trace, applied in order. *)
Definition run (cs : list call) (pm : ProgressManager) : ProgressManager :=
  foldl (λ pm c, do_call c pm) pm cs.

Definition urls_marked_completed (cs : list call) : list string :=
  omap (λ c, match c with MarkCompleted _ _ u _ => Some u | _ => None end) cs.

Definition urls_marked_failed (cs : list call) : list string :=
  omap (λ c, match c with MarkFailed _ u _ => Some u | _ => None end) cs.

(** The result entries recorded for [url]: those whose [_url] is [url]. *)
Definition is_entry_for (url : string) (d : pydict) : bool :=
  match dget "_url" d with
  | Some (PStr u) => bool_decide (u = url)
  | _ => false
  end.

Definition entries_for (url : string) (l : list pydict) : list pydict :=
  filter (λ d, Is_true (is_entry_for url d)) l.

(** What [__init__] establishes and every method keeps: the lookup set
    mirrors the completed list. *)
Definition set_synced (pm : ProgressManager) : Prop :=
  _completed_set pm = list_to_set (completed_url_list (state pm)).

(** The specification's [remaining()]: the worklist minus the union of the
    completed and the failed URL sets, in worklist order. *)
Definition remaining_spec (st : ProgressState) : list string :=
  let done : gset string :=
    list_to_set (completed_url_list st) ∪ list_to_set (failed_url_list st) in
  filter (λ url, url ∉ done) (urls_to_scrape st).

(** ** The other methods of ProgressManager *)

Definition with_status (v : string) (s : ProgressState) : ProgressState :=
  mkProgressState (task_id s) (start_url s) (created_at s) (updated_at s) v
    (total_urls s) (completed_urls s) (failed_urls s) (current_page s)
    (urls_to_scrape s) (completed_url_list s) (failed_url_list s)
    (scraped_data s) (last_url s) (next_url s) (pagination_type s)
    (last_error s) (retry_count s) (max_retries s) (config s) (notes s).

Definition with_notes (v : string) (s : ProgressState) : ProgressState :=
  mkProgressState (task_id s) (start_url s) (created_at s) (updated_at s) (status s)
    (total_urls s) (completed_urls s) (failed_urls s) (current_page s)
    (urls_to_scrape s) (completed_url_list s) (failed_url_list s)
    (scraped_data s) (last_url s) (next_url s) (pagination_type s)
    (last_error s) (retry_count s) (max_retries s) (config s) v.

Definition with_current_page (v : Z) (s : ProgressState) : ProgressState :=
  mkProgressState (task_id s) (start_url s) (created_at s) (updated_at s) (status s)
    (total_urls s) (completed_urls s) (failed_urls s) v
    (urls_to_scrape s) (completed_url_list s) (failed_url_list s)
    (scraped_data s) (last_url s) (next_url s) (pagination_type s)
    (last_error s) (retry_count s) (max_retries s) (config s) (notes s).

Definition with_next_url (v : option string) (s : ProgressState) : ProgressState :=
  mkProgressState (task_id s) (start_url s) (created_at s) (updated_at s) (status s)
    (total_urls s) (completed_urls s) (failed_urls s) (current_page s)
    (urls_to_scrape s) (completed_url_list s) (failed_url_list s)
    (scraped_data s) (last_url s) v (pagination_type s)
    (last_error s) (retry_count s) (max_retries s) (config s) (notes s).

Definition with_config (v : pydict) (s : ProgressState) : ProgressState :=
  mkProgressState (task_id s) (start_url s) (created_at s) (updated_at s) (status s)
    (total_urls s) (completed_urls s) (failed_urls s) (current_page s)
    (urls_to_scrape s) (completed_url_list s) (failed_url_list s)
    (scraped_data s) (last_url s) (next_url s) (pagination_type s)
    (last_error s) (retry_count s) (max_retries s) v (notes s).

(** [has_progress] *)
Definition has_progress (pm : ProgressManager) : bool :=
  (0 <? completed_urls (state pm)) || (0 <? current_page (state pm))
  || (0 <? Z.of_nat (length (scraped_data (state pm)))).

(** The loop of [add_urls]: each URL is appended unless the worklist,
    as grown so far, already holds it. *)
Fixpoint extend_worklist (urls worklist : list string) : list string :=
  match urls with
  | [] => worklist
  | u :: rest =>
      extend_worklist rest
        (if decide (u ∈ worklist) then worklist else worklist ++ [u])
  end.

(** [add_urls] *)
Definition add_urls (now : string) (urls : list string) (pm : ProgressManager) : ProgressManager :=
  let worklist := extend_worklist urls (urls_to_scrape (state pm)) in
  _maybe_auto_save now
    (with_state (with_worklist worklist (Z.of_nat (length worklist)) (state pm)) pm).

(** [set_current_page], [set_next_url] (both auto-save) and [set_config]
    (which does not). *)
Definition set_current_page (now : string) (page : Z) (pm : ProgressManager) : ProgressManager :=
  _maybe_auto_save now (with_state (with_current_page page (state pm)) pm).

Definition set_next_url (now : string) (u : option string) (pm : ProgressManager) : ProgressManager :=
  _maybe_auto_save now (with_state (with_next_url u (state pm)) pm).

Definition set_config (c : pydict) (pm : ProgressManager) : ProgressManager :=
  with_state (with_config c (state pm)) pm.

(** [add_note]: [stamp_] is the clock formatted by [strftime]. *)
Definition add_note (stamp_ note : string) (pm : ProgressManager) : ProgressManager :=
  with_state
    (with_notes (String.append (notes (state pm))
                   (String (ascii_of_nat 10)
                      (String.append "[" (String.append stamp_ (String.append "] " note)))))
                (state pm)) pm.

(** [pause], [resume], [finish(status)] and [fail(error)]: each sets the
    status, adds a note and saves; [stamp_] is the clock read by
    [add_note], [now] the one read by [save] ([finish] reads it once more
    for [updated_at], which [save] then overwrites). *)
Definition pause (stamp_ now : string) (pm : ProgressManager) : ProgressManager :=
  save now (add_note stamp_ "Task paused"
              (with_state (with_status "paused" (state pm)) pm)).

Definition resume (stamp_ now : string) (pm : ProgressManager) : ProgressManager :=
  save now (add_note stamp_ "Task resumed"
              (with_state (with_status "in_progress" (state pm)) pm)).

Definition finish (now0 stamp_ now : string) (status_ : string) (pm : ProgressManager)
    : ProgressManager :=
  save now
    (add_note stamp_ (String.append "Task " status_)
       (with_state (with_updated_at now0 (with_status status_ (state pm))) pm)).

Definition fail (stamp_ now : string) (error : string) (pm : ProgressManager) : ProgressManager :=
  save now
    (add_note stamp_ (String.append "Task failed: " error)
       (with_state (with_last_error (Some error)
                      (with_status "failed" (state pm))) pm)).

(** [reset]: a new state that keeps the start URL and the config; [tid]
    is the manager's own [self.task_id], [created] the clock read by the
    dataclass defaults. *)
Definition reset (tid created now : string) (pm : ProgressManager) : ProgressManager :=
  let st := with_config (config (state pm))
              (new_state tid (start_url (state pm)) created) in
  save now (with_completed_set ∅ (with_state st pm)).

(** [delete]: the progress file is unlinked if it exists; the object in
    memory stays as it is. *)
Definition delete (pm : ProgressManager) : ProgressManager :=
  mkProgressManager (auto_save pm) (save_interval pm) (_completions_since_save pm)
    None (state pm) (_completed_set pm).

(** Any public method that changes the manager, with the clock values it
    reads. *)
Inductive method : Type :=
| SetUrls (now : string) (urls : list string)
| AddUrls (now : string) (urls : list string)
| Completed (scraped_at now url : string) (data : option pydict)
| Failed (now url error : string)
| SetCurrentPage (now : string) (page : Z)
| SetNextUrl (now : string) (u : option string)
| SetConfig (c : pydict)
| AddNote (stamp_ note : string)
| Pause (stamp_ now : string)
| Resume (stamp_ now : string)
| Finish (now0 stamp_ now status_ : string)
| Fail (stamp_ now error : string)
| Reset (tid created now : string)
| Delete
| Save (now : string).

Definition invoke (m : method) (pm : ProgressManager) : ProgressManager :=
  match m with
  | SetUrls now urls => set_urls now urls pm
  | AddUrls now urls => add_urls now urls pm
  | Completed t now u data => mark_completed t now u data pm
  | Failed now u err => mark_failed now u err pm
  | SetCurrentPage now page => set_current_page now page pm
  | SetNextUrl now u => set_next_url now u pm
  | SetConfig c => set_config c pm
  | AddNote t note => add_note t note pm
  | Pause t now => pause t now pm
  | Resume t now => resume t now pm
  | Finish now0 t now st => finish now0 t now st pm
  | Fail t now err => fail t now err pm
  | Reset tid created now => reset tid created now pm
  | Delete => delete pm
  | Save now => save now pm
  end.

Definition invoke_all (ms : list method) (pm : ProgressManager) : ProgressManager :=
  foldl (λ pm m, invoke m pm) pm ms.

(** The methods that end with [_maybe_auto_save], i.e. whose write to the
    file is subject to the save interval. *)
Definition auto_saving (m : method) : bool :=
  match m with
  | SetUrls _ _ | AddUrls _ _ | Completed _ _ _ _ | Failed _ _ _
  | SetCurrentPage _ _ | SetNextUrl _ _ => true
  | _ => false
  end.

(** The status that a lifecycle method sets. *)
Definition lifecycle_status (m : method) : option string :=
  match m with
  | Pause _ _ => Some "paused"
  | Resume _ _ => Some "in_progress"
  | Finish _ _ _ status_ => Some status_
  | Fail _ _ _ => Some "failed"
  | _ => None
  end.

(** ** Example managers *)

(** A fresh manager for the examples: no file on disk, auto-save on. *)
Definition fresh : ProgressManager :=
  init "task" "https://example.com/" true 1 None "2024-01-01T00:00:00".

Definition page : pydict := [("title", PStr "Home"); ("content", PStr "hello")].

(** A resumed task: worklist [A,B,C,D] with [A] and [B] completed on disk. *)
Definition resumed : ProgressManager :=
  init "task" "" true 5
    (Some (with_completed ["A"; "B"] 2
             (with_worklist ["A"; "B"; "C"; "D"] 4
                (new_state "task" "" "2024-01-01T00:00:00"))))
    "2024-01-02T00:00:00".

End Progress.

(* ===================================================================== *)
(** * Exceptions                                                          *)
(* ===================================================================== *)

(** The exceptions that the modelled code can raise.  [WrongType] stands
    for the [TypeError] or [AttributeError] of an operation applied to a
    value of the wrong Python type. *)
Inductive exn : Type :=
| KeyError
| WrongType
| ValueError
| ZeroDivisionError
| Exception (msg : string)
| CancelledError.

(** [isinstance(e, Exception)]: [CancelledError] derives from
    [BaseException] only. *)
Definition is_Exception (e : exn) : bool :=
  match e with CancelledError => false | _ => true end.

Inductive outcome (A : Type) : Type :=
| Returns (a : A)
| Raises (e : exn).
Arguments Returns {A} a.
Arguments Raises {A} e.

Definition obind {A B : Type} (m : outcome A) (k : A → outcome B) : outcome B :=
  match m with
  | Returns a => k a
  | Raises e => Raises e
  end.

Notation "x ←! m ; k" := (obind m (λ x, k))
  (at level 100, m at next level, right associativity, only parsing).

(* ===================================================================== *)
(** * crawl4ai_wrapper.py: BlockLevel and AdaptiveRateLimiter             *)
(* ===================================================================== *)

Module Backoff.

Inductive OutputFormat : Type := JSON | MARKDOWN | CSV | AUTO.

(** [@dataclass class CrawlConfig] *)
Record CrawlConfig : Type := mkCrawlConfig {
  min_delay : Q;
  max_delay : Q;
  max_pages : Z;
  max_retries : Z;
  timeout : Z;
  headless : bool;
  user_agent : option string;
  proxy : option string;
  output_format : OutputFormat;
  output_path : option string;
  discover_series : bool;
  browser_path : option string
}.

(** [CrawlConfig()] with the dataclass defaults. *)
Definition default_config : CrawlConfig :=
  {| min_delay := 2; max_delay := 5; max_pages := 100; max_retries := 3;
     timeout := 30000; headless := true; user_agent := None; proxy := None;
     output_format := AUTO; output_path := None; discover_series := false;
     browser_path := None |}.

(** [class BlockLevel(Enum)] *)
Inductive BlockLevel : Type := NONE | LIGHT | MODERATE | SEVERE.

(** [level.value] *)
Definition value (l : BlockLevel) : Z :=
  match l with NONE => 0 | LIGHT => 1 | MODERATE => 2 | SEVERE => 3 end.

(** [BlockLevel(v)]: the enum lookup by value raises [ValueError] when no
    member has that value. *)
Definition BlockLevel_of (v : Z) : outcome BlockLevel :=
  if v =? 0 then Returns NONE
  else if v =? 1 then Returns LIGHT
  else if v =? 2 then Returns MODERATE
  else if v =? 3 then Returns SEVERE
  else Raises ValueError.

(** The [anti_block] entry of a learned pattern, as [get_learned_config]
    writes it; a key that is absent is [None]. *)
Record AntiBlock : Type := mkAntiBlock {
  learned_min_delay : option Q;
  learned_max_delay : option Q;
  blocked_at_request : option Z
}.

(** [class AdaptiveRateLimiter] *)
Record AdaptiveRateLimiter : Type := mkLimiter {
  config : CrawlConfig;
  block_level : BlockLevel;
  consecutive_successes : Z;
  consecutive_failures : Z;
  request_count : Z;
  blocked_at : option Z;
  known_block_threshold : option Z
}.

Definition with_delays (lo hi : Q) (c : CrawlConfig) : CrawlConfig :=
  mkCrawlConfig lo hi (max_pages c) (max_retries c) (timeout c) (headless c)
    (user_agent c) (proxy c) (output_format c) (output_path c)
    (discover_series c) (browser_path c).

(** [__init__(config, learned_config)]; [learned] is
    [learned_config.get("anti_block", {})] when a learned config is given. *)
Definition init (c : CrawlConfig) (learned : option AntiBlock) : AdaptiveRateLimiter :=
  match learned with
  | Some ab =>
      {| config := with_delays (default (min_delay c) (learned_min_delay ab))
                               (default (max_delay c) (learned_max_delay ab)) c;
         block_level := NONE;
         consecutive_successes := 0; consecutive_failures := 0;
         request_count := 0; blocked_at := None;
         known_block_threshold := blocked_at_request ab |}
  | None =>
      {| config := c; block_level := NONE;
         consecutive_successes := 0; consecutive_failures := 0;
         request_count := 0; blocked_at := None;
         known_block_threshold := None |}
  end.

(** The interval from which [get_delay] draws uniformly:
    [[min_delay * 2 ** level, max_delay * 2 ** level]]. *)
Definition delay_window (l : AdaptiveRateLimiter) : Q * Q :=
  let multiplier := inject_Z (2 ^ value (block_level l)) in
  ((min_delay (config l) * multiplier)%Q, (max_delay (config l) * multiplier)%Q).

(** [report_success] *)
Definition report_success (l : AdaptiveRateLimiter) : outcome AdaptiveRateLimiter :=
  let successes := consecutive_successes l + 1 in
  if (5 <=? successes) && (0 <? value (block_level l)) then
    lvl ←! BlockLevel_of (value (block_level l) - 1);
    Returns (mkLimiter (config l) lvl 0 0 (request_count l) (blocked_at l)
               (known_block_threshold l))
  else
    Returns (mkLimiter (config l) (block_level l) successes 0 (request_count l)
               (blocked_at l) (known_block_threshold l)).

(** The escalation chosen by [report_failure]:
    [2 if status_code in [429, 403] else 1]. *)
Definition escalation (status_code : option Z) : Z :=
  match status_code with
  | Some c => if (c =? 429) || (c =? 403) then 2 else 1
  | None => 1
  end.

(** [report_failure(status_code)] *)
Definition report_failure (status_code : option Z) (l : AdaptiveRateLimiter)
    : outcome AdaptiveRateLimiter :=
  let failures := consecutive_failures l + 1 in
  let blocked := match blocked_at l with
                 | None => Some (request_count l)
                 | Some b => Some b
                 end in
  let new_level := Z.min (value (block_level l) + escalation status_code)
                         (value SEVERE) in
  lvl ←! BlockLevel_of new_level;
  Returns (mkLimiter (config l) lvl 0 failures (request_count l) blocked
             (known_block_threshold l)).

(** A sequence of [report_failure] calls, one per status code. *)
Fixpoint report_failures (codes : list (option Z)) (l : AdaptiveRateLimiter)
    : outcome AdaptiveRateLimiter :=
  match codes with
  | [] => Returns l
  | c :: cs => l' ←! report_failure c l; report_failures cs l'
  end.

(** [wait]: after the sleep, one more request is counted. *)
Definition wait (l : AdaptiveRateLimiter) : AdaptiveRateLimiter :=
  mkLimiter (config l) (block_level l) (consecutive_successes l)
    (consecutive_failures l) (request_count l + 1) (blocked_at l)
    (known_block_threshold l).

(** [get_learned_config] *)
Definition get_learned_config (l : AdaptiveRateLimiter) : AntiBlock :=
  {| learned_min_delay := Some (min_delay (config l));
     learned_max_delay := Some (max_delay (config l));
     blocked_at_request := blocked_at l |}.

(** [n] calls of [report_success] in a row. *)
Fixpoint report_successes (n : nat) (l : AdaptiveRateLimiter)
    : outcome AdaptiveRateLimiter :=
  match n with
  | O => Returns l
  | S k => l' ←! report_successes k l; report_success l'
  end.

(** What a crawl does to its limiter, one step at a time. *)
Inductive report : Type :=
| Waited
| Succeeded
| FailedWith (status_code : option Z).

Definition apply_report (r : report) (l : AdaptiveRateLimiter)
    : outcome AdaptiveRateLimiter :=
  match r with
  | Waited => Returns (wait l)
  | Succeeded => report_success l
  | FailedWith c => report_failure c l
  end.

Fixpoint apply_reports (rs : list report) (l : AdaptiveRateLimiter)
    : outcome AdaptiveRateLimiter :=
  match rs with
  | [] => Returns l
  | r :: rest => l' ←! apply_report r l; apply_reports rest l'
  end.

Definition is_failure (r : report) : bool :=
  match r with FailedWith _ => true | _ => false end.

Definition is_wait (r : report) : bool :=
  match r with Waited => true | _ => false end.

End Backoff.

(* ===================================================================== *)
(** * concurrent_scraper.py: TokenBucketRateLimiter                       *)
(* ===================================================================== *)

Module TokenBucket.

(** [class TokenBucketRateLimiter]; the [asyncio.Lock] makes each call of
    [acquire] atomic, which is what a function on the state expresses. *)
Record TokenBucketRateLimiter : Type := mkBucket {
  rate : Q;
  capacity : Z;
  tokens : Q;
  last_update : Q
}.

(** [int(x)] on a float: truncation toward zero. *)
Definition int_of_float (x : Q) : Z := Z.quot (Qnum x) (Zpos (Qden x)).

(** [__init__(rate, capacity=None)]: [capacity or int(rate)], where both
    [None] and [0] are falsy; [now] is [time.monotonic()]. *)
Definition init (r : Q) (cap : option Z) (now : Q) : TokenBucketRateLimiter :=
  let c := match cap with
           | Some c => if c =? 0 then int_of_float r else c
           | None => int_of_float r
           end in
  {| rate := r; capacity := c; tokens := inject_Z c; last_update := now |}.

(** The refill step of [acquire]:
    [min(self.capacity, self.tokens + elapsed * self.rate)]. *)
Definition refill (now : Q) (b : TokenBucketRateLimiter) : Q :=
  Qmin (inject_Z (capacity b)) (tokens b + (now - last_update b) * rate b).

(** [acquire(tokens=n)] at monotonic time [now]: the time waited (the
    argument of [asyncio.sleep]) and the bucket after the call.  Dividing
    by a zero rate raises after the refill has been stored. *)
Definition acquire (now : Q) (n : Z) (b : TokenBucketRateLimiter)
    : outcome Q * TokenBucketRateLimiter :=
  let refilled := refill now b in
  if Qlt_le_dec refilled (inject_Z n) then
    if Qeq_dec (rate b) 0 then
      (Raises ZeroDivisionError, mkBucket (rate b) (capacity b) refilled now)
    else
      (Returns ((inject_Z n - refilled) / rate b)%Q,
       mkBucket (rate b) (capacity b) 0 now)
  else
    (Returns 0%Q, mkBucket (rate b) (capacity b) (refilled - inject_Z n) now).

(** One [acquire(1)] per time in [times], in order: the waits returned
    and the bucket at the end. *)
Fixpoint acquire_each (times : list Q) (b : TokenBucketRateLimiter)
    : list (outcome Q) * TokenBucketRateLimiter :=
  match times with
  | [] => ([], b)
  | t :: rest =>
      let '(w, b1) := acquire t 1 b in
      let '(ws, b2) := acquire_each rest b1 in
      (w :: ws, b2)
  end.

(** The times of a list are in order, starting at or after [t0]. *)
Fixpoint ascending (t0 : Q) (times : list Q) : Prop :=
  match times with
  | [] => True
  | t :: rest => (t0 <= t)%Q ∧ ascending t rest
  end.

End TokenBucket.

(* ===================================================================== *)
(** * Library functions used by ExperienceManager                         *)
(* ===================================================================== *)

Module PyLib.

Local Open Scope char_scope.

Definition is_digit (c : ascii) : bool :=
  let n := nat_of_ascii c in (48 <=? n)%nat && (n <=? 57)%nat.

Definition is_alpha (c : ascii) : bool :=
  let n := nat_of_ascii c in
  ((65 <=? n)%nat && (n <=? 90)%nat) || ((97 <=? n)%nat && (n <=? 122)%nat).

Definition to_lower (c : ascii) : ascii :=
  let n := nat_of_ascii c in
  if (65 <=? n)%nat && (n <=? 90)%nat then ascii_of_nat (n + 32) else c.

Definition char_eqb (a b : ascii) : bool := Ascii.eqb a b.

Fixpoint contains_char (c : ascii) (s : string) : bool :=
  match s with
  | EmptyString => false
  | String d r => char_eqb c d || contains_char c r
  end.

(** [s.partition]-like split at the first character satisfying [p]: the
    text before it, and the rest starting with that character. *)
Fixpoint break_at (p : ascii → bool) (s : string) : string * string :=
  match s with
  | EmptyString => (EmptyString, EmptyString)
  | String c r =>
      if p c then (EmptyString, s)
      else let '(a, b) := break_at p r in (String c a, b)
  end.

Fixpoint str_map (f : ascii → ascii) (s : string) : string :=
  match s with
  | EmptyString => EmptyString
  | String c r => String (f c) (str_map f r)
  end.

Fixpoint str_forall (p : ascii → bool) (s : string) : bool :=
  match s with
  | EmptyString => true
  | String c r => p c && str_forall p r
  end.

(** ** urllib.parse.urlparse

    The six components of
    [scheme://netloc/path;params?query#fragment], for an ASCII URL without
    leading whitespace, control characters or a bracketed (IPv6) host. *)
Record ParseResult : Type := mkParseResult {
  scheme : string;
  netloc : string;
  path : string;
  params : string;
  query : string;
  fragment : string
}.

Definition scheme_char (c : ascii) : bool :=
  is_alpha c || is_digit c || char_eqb c "+" || char_eqb c "-" || char_eqb c ".".

(** [url[:i].lower(), url[i+1:]] when the text before the first colon is a
    scheme, else no scheme. *)
Definition split_scheme (url : string) : string * string :=
  match url with
  | EmptyString => (EmptyString, url)
  | String c0 _ =>
      let '(pre, rest) := break_at (char_eqb ":") url in
      match rest with
      | String _ after =>
          if is_alpha c0 && str_forall scheme_char pre
          then (str_map to_lower pre, after)
          else (EmptyString, url)
      | EmptyString => (EmptyString, url)
      end
  end.

Definition netloc_delim (c : ascii) : bool :=
  char_eqb c "/" || char_eqb c "?" || char_eqb c "#".

Definition split_netloc (url : string) : string * string :=
  match url with
  | String "/" (String "/" r) => break_at netloc_delim r
  | _ => (EmptyString, url)
  end.

(** [url.split(c, 1)]: the text before the first [c] and the text after it. *)
Definition split_once (c : ascii) (s : string) : string * string :=
  let '(a, b) := break_at (char_eqb c) s in
  match b with
  | String _ r => (a, r)
  | EmptyString => (a, EmptyString)
  end.

Definition uses_params : list string :=
  [""; "ftp"; "hdl"; "prospero"; "http"; "imap"; "https"; "shttp"; "rtsp";
   "rtspu"; "sip"; "sips"; "mms"; "sftp"; "tel"]%string.

(** [_splitparams]: the parameters of the last path segment.  The
    accumulator holds the part of the path already passed; a [/] resets
    the candidate split. *)
Fixpoint splitparams_from (s : string) : string * option string :=
  match s with
  | EmptyString => (EmptyString, None)
  | String c r =>
      let '(p, q) := splitparams_from r in
      if char_eqb c ";" then
        if contains_char "/" r then (String c p, q)
        else (EmptyString, Some r)
      else (String c p, q)
  end.

Definition urlparse (url : string) : ParseResult :=
  let '(sch, u1) := split_scheme url in
  let '(loc, u2) := split_netloc u1 in
  let '(u3, frag) := split_once "#" u2 in
  let '(u4, qry) := split_once "?" u3 in
  let '(pth, prm) :=
    if bool_decide (sch ∈ uses_params) && contains_char ";" u4
    then match splitparams_from u4 with
         | (p, Some q) => (p, q)
         | (p, None) => (p, EmptyString)
         end
    else (u4, EmptyString) in
  mkParseResult sch loc pth prm qry frag.

(** ** re.sub(sep + r'\d+', sep + '*', s)

    Every maximal run of digits that follows [sep] becomes a [*];
    [skipping] is set while the digits of a match are being consumed. *)
Definition starts_with_digit (s : string) : bool :=
  match s with
  | String d _ => is_digit d
  | EmptyString => false
  end.

Fixpoint sub_digits (sep : ascii) (skipping : bool) (s : string) : string :=
  match s with
  | EmptyString => EmptyString
  | String c r =>
      if skipping && is_digit c then sub_digits sep true r
      else if char_eqb c sep && starts_with_digit r
           then String sep (String "*" (sub_digits sep true r))
           else String c (sub_digits sep false r)
  end.

(** ** fnmatch.fnmatch(name, pat)

    The pattern language of [fnmatch.translate]: [*] matches any text
    (including [/]), [?] any one character, [[seq]] and [[!seq]] a
    character class, anything else itself.  On POSIX [os.path.normcase]
    is the identity. *)
Inductive class_item : Type :=
| One (c : ascii)
| Range (lo hi : ascii).

Inductive glob_token : Type :=
| Star
| AnyChar
| Class (negated : bool) (items : list class_item)
| Lit (c : ascii).

(** The items of a bracket expression: [x-y] is a range, a [-] that is
    first or last is itself. *)
Fixpoint class_items (s : string) : list class_item :=
  match s with
  | EmptyString => []
  | String x r =>
      match r with
      | String "-" (String y r') => Range x y :: class_items r'
      | _ => One x :: class_items r
      end
  end.

(** The text of a bracket expression, given what follows the [[]: an
    optional [!], then an optional []] that belongs to the set, up to the
    next []].  Returns the set's text and its length including the closing
    bracket, or [None] when the bracket is never closed. *)
Fixpoint until_close (s : string) : option (string * nat) :=
  match s with
  | EmptyString => None
  | String "]" _ => Some (EmptyString, 1%nat)
  | String c r =>
      match until_close r with
      | Some (t, n) => Some (String c t, S n)
      | None => None
      end
  end.

Definition bracket_body (s : string) : option (bool * string * nat) :=
  let '(neg, s1, n1) :=
    match s with
    | String "!" r => (true, r, 1%nat)
    | _ => (false, s, 0%nat)
    end in
  match s1 with
  | String "]" r =>
      match until_close r with
      | Some (t, n) => Some (neg, String "]" t, (n1 + 1 + n)%nat)
      | None => None
      end
  | _ =>
      match until_close s1 with
      | Some (t, n) => Some (neg, t, (n1 + n)%nat)
      | None => None
      end
  end.

(** [skip] counts the characters of a bracket expression that remain to be
    passed over. *)
Fixpoint glob_tokens (skip : nat) (pat : string) : list glob_token :=
  match pat with
  | EmptyString => []
  | String c r =>
      match skip with
      | S k => glob_tokens k r
      | O =>
          if char_eqb c "*" then Star :: glob_tokens 0 r
          else if char_eqb c "?" then AnyChar :: glob_tokens 0 r
          else if char_eqb c "[" then
            match bracket_body r with
            | Some (neg, body, n) => Class neg (class_items body) :: glob_tokens n r
            | None => Lit c :: glob_tokens 0 r
            end
          else Lit c :: glob_tokens 0 r
      end
  end.

Definition in_item (c : ascii) (i : class_item) : bool :=
  match i with
  | One x => char_eqb c x
  | Range lo hi =>
      (nat_of_ascii lo <=? nat_of_ascii c)%nat && (nat_of_ascii c <=? nat_of_ascii hi)%nat
  end.

Definition in_class (neg : bool) (items : list class_item) (c : ascii) : bool :=
  xorb neg (existsb (in_item c) items).

(** Whether the whole of [name] matches the tokens. *)
Fixpoint glob_match (ts : list glob_token) (name : string) : bool :=
  match ts with
  | [] => match name with EmptyString => true | _ => false end
  | Star :: ts' =>
      (fix star (s : string) : bool :=
         glob_match ts' s ||
         match s with
         | EmptyString => false
         | String _ r => star r
         end) name
  | AnyChar :: ts' =>
      match name with
      | String _ r => glob_match ts' r
      | EmptyString => false
      end
  | Class neg items :: ts' =>
      match name with
      | String d r => in_class neg items d && glob_match ts' r
      | EmptyString => false
      end
  | Lit c :: ts' =>
      match name with
      | String d r => char_eqb c d && glob_match ts' r
      | EmptyString => false
      end
  end.

Definition fnmatch (name pat : string) : bool :=
  glob_match (glob_tokens 0 pat) name.

(** ** str methods used by the lessons log and the URL similarity *)

(** [s.startswith(m)], and what follows the prefix. *)
Fixpoint strip_prefix (m s : string) : option string :=
  match m with
  | EmptyString => Some s
  | String c m' =>
      match s with
      | String d s' => if char_eqb c d then strip_prefix m' s' else None
      | EmptyString => None
      end
  end.

(** The first occurrence of [m] in [s]: the text before it and the text
    after it, as [s.partition(m)] gives them; [None] when [m not in s]. *)
Fixpoint find_sub (m s : string) : option (string * string) :=
  match strip_prefix m s with
  | Some rest => Some (EmptyString, rest)
  | None =>
      match s with
      | EmptyString => None
      | String c s' =>
          match find_sub m s' with
          | Some (a, b) => Some (String c a, b)
          | None => None
          end
      end
  end.

(** [s.split(c)] for a one-character separator. *)
Fixpoint split_on (c : ascii) (s : string) : list string :=
  match s with
  | EmptyString => [EmptyString]
  | String d r =>
      if char_eqb d c then EmptyString :: split_on c r
      else match split_on c r with
           | h :: t => String d h :: t
           | [] => [String d EmptyString]
           end
  end.

(** [m in s], and the split of [s] at the first occurrence of [m], as
    properties of the text. *)
Definition occurs (m s : string) : Prop := ∃ a b, s = a +:+ m +:+ b.

Definition first_split (m s a b : string) : Prop :=
  s = a +:+ m +:+ b ∧
  ∀ a' b', s = a' +:+ m +:+ b' → (String.length a ≤ String.length a')%nat.

End PyLib.

(* ===================================================================== *)
(** * crawl4ai_wrapper.py: ExperienceManager                              *)
(* ===================================================================== *)

Module Experience.
Import PyLib.

(** [self.patterns] is the document of [site_patterns.json]: origin ->
    [{"url_patterns": {shape -> record}}], plus the [_meta] block.
    [patterns_file] is the content of the file on disk. *)
Record ExperienceManager : Type := mkExperienceManager {
  patterns : pydict;
  patterns_file : option pydict
}.

(** Calling a [dict] method on a value: anything but a dictionary raises. *)
Definition as_dict (v : pyval) : outcome pydict :=
  match v with
  | PDict d => Returns d
  | _ => Raises WrongType
  end.

(** [d.get(k, dflt)] *)
Definition dget_or (k : string) (dflt : pyval) (d : pydict) : pyval :=
  default dflt (dget k d).

(** Python numbers: [bool] is an [int]; [int + float] is a [float]. *)
Inductive number : Type :=
| NInt (z : Z)
| NFloat (q : Q).

Definition as_number (v : pyval) : outcome number :=
  match v with
  | PInt z => Returns (NInt z)
  | PBool b => Returns (NInt (if b then 1 else 0))
  | PFloat q => Returns (NFloat q)
  | _ => Raises WrongType
  end.

Definition of_number (n : number) : pyval :=
  match n with
  | NInt z => PInt z
  | NFloat q => PFloat q
  end.

Definition num_add (a b : number) : number :=
  match a, b with
  | NInt x, NInt y => NInt (x + y)
  | NInt x, NFloat y => NFloat (inject_Z x + y)
  | NFloat x, NInt y => NFloat (x + inject_Z y)
  | NFloat x, NFloat y => NFloat (x + y)
  end.

(** [a + b] on stored values *)
Definition py_add (a b : pyval) : outcome pyval :=
  x ←! as_number a;
  y ←! as_number b;
  Returns (of_number (num_add x y)).

(** [len(v)] *)
Definition py_len (v : pyval) : outcome Z :=
  match v with
  | PDict d => Returns (Z.of_nat (length d))
  | PList l => Returns (Z.of_nat (length l))
  | PStr s => Returns (Z.of_nat (String.length s))
  | _ => Raises WrongType
  end.

(** [_url_to_pattern] *)
Definition _url_to_pattern (url : string) : string :=
  let parsed := urlparse url in
  let pattern := sub_digits "/" false (path parsed) in
  sub_digits "=" false pattern.

(** The loop [for pattern, config in domain_patterns.items()] of
    [find_pattern]: the first stored shape that matches wins. *)
Fixpoint first_wildcard_match (url_pattern : string) (items : pydict) : pyval :=
  match items with
  | [] => PNone
  | (pattern, config) :: rest =>
      if fnmatch url_pattern pattern then config
      else first_wildcard_match url_pattern rest
  end.

(** [find_pattern(url)]; Python's [None] is [PNone]. *)
Definition find_pattern (url : string) (em : ExperienceManager) : outcome pyval :=
  let parsed := urlparse url in
  let domain := netloc parsed in
  let url_pattern := _url_to_pattern url in
  match dget domain (patterns em) with
  | None => Returns PNone
  | Some entry =>
      entry_d ←! as_dict entry;
      domain_patterns ←! as_dict (dget_or "url_patterns" (PDict []) entry_d);
      match dget url_pattern domain_patterns with
      | Some config => Returns config
      | None => Returns (first_wildcard_match url_pattern domain_patterns)
      end
  end.

(** [sum(len(d.get("url_patterns", {})) for k, d in items if k != "_meta")] *)
Fixpoint sum_pattern_counts (acc : Z) (items : pydict) : outcome Z :=
  match items with
  | [] => Returns acc
  | (k, d) :: rest =>
      if decide (k = "_meta") then sum_pattern_counts acc rest
      else
        d_d ←! as_dict d;
        n ←! py_len (dget_or "url_patterns" (PDict []) d_d);
        sum_pattern_counts (acc + n) rest
  end.

(** [sum(p.get("success_count", 0) for p in records.values())], continued
    from the running total [acc]. *)
Fixpoint sum_success_counts (acc : pyval) (records : pydict) : outcome pyval :=
  match records with
  | [] => Returns acc
  | (_, p) :: rest =>
      p_d ←! as_dict p;
      acc' ←! py_add acc (dget_or "success_count" (PInt 0) p_d);
      sum_success_counts acc' rest
  end.

(** The outer generator of the [total_successes] sum. *)
Fixpoint sum_successes (acc : pyval) (items : pydict) : outcome pyval :=
  match items with
  | [] => Returns acc
  | (k, d) :: rest =>
      if decide (k = "_meta") then sum_successes acc rest
      else
        d_d ←! as_dict d;
        records ←! as_dict (dget_or "url_patterns" (PDict []) d_d);
        acc' ←! sum_success_counts acc records;
        sum_successes acc' rest
  end.

(** [self.patterns["_meta"][k] = v] *)
Definition set_meta (k : string) (v : pyval) (p : pydict) : outcome pydict :=
  match dget "_meta" p with
  | None => Raises KeyError
  | Some (PDict m) => Returns (dset "_meta" (PDict (dset k v m)) p)
  | Some _ => Raises WrongType
  end.

(** [_save_patterns]: stamp [_meta.last_updated], then rewrite the file. *)
Definition _save_patterns (now : string) (em : ExperienceManager)
    : outcome unit * ExperienceManager :=
  match set_meta "last_updated" (PStr now) (patterns em) with
  | Returns p => (Returns tt, mkExperienceManager p (Some p))
  | Raises e => (Raises e, em)
  end.

(** The dictionary literal [merged] of [save_pattern]. *)
Definition merge (t_success t_created : string) (pattern_data existing : pydict)
    : outcome pydict :=
  count ←! py_add (dget_or "success_count" (PInt 0) existing) (PInt 1);
  Returns
    [ ("description", dget_or "description" (dget_or "description" (PStr "") existing) pattern_data);
      ("selectors", dget_or "selectors" (dget_or "selectors" (PDict []) existing) pattern_data);
      ("pagination", dget_or "pagination" (dget_or "pagination" (PDict []) existing) pattern_data);
      ("anti_block", dget_or "anti_block" (dget_or "anti_block" (PDict []) existing) pattern_data);
      ("success_count", count);
      ("fail_count", dget_or "fail_count" (PInt 0) existing);
      ("last_success", PStr t_success);
      ("last_fail", dget_or "last_fail" PNone existing);
      ("created_at", dget_or "created_at" (PStr t_created) existing);
      ("notes", dget_or "notes" (dget_or "notes" (PStr "") existing) pattern_data);
      ("status", PStr "active") ].

(** [save_pattern(url, pattern_data)].  The three clock values are the ones
    read for [last_success], for the default of [created_at] and by
    [_save_patterns].  When a step raises, the manager keeps the
    assignments made before it. *)
Definition save_pattern (t_success t_created t_saved : string) (url : string)
    (pattern_data : pydict) (em : ExperienceManager)
    : outcome unit * ExperienceManager :=
  let parsed := urlparse url in
  let domain := netloc parsed in
  let url_pattern := _url_to_pattern url in
  let file := patterns_file em in
  let p1 :=
    if dmem domain (patterns em) then patterns em
    else dset domain (PDict [("url_patterns", PDict [])]) (patterns em) in
  match dget domain p1 with
  | Some (PDict entry) =>
      let entry2 :=
        if dmem "url_patterns" entry then entry
        else dset "url_patterns" (PDict []) entry in
      let p2 := dset domain (PDict entry2) p1 in
      match dget "url_patterns" entry2 with
      | Some (PDict records) =>
          match as_dict (dget_or url_pattern (PDict []) records) with
          | Returns existing =>
              match merge t_success t_created pattern_data existing with
              | Returns merged =>
                  let records3 := dset url_pattern (PDict merged) records in
                  let entry3 := dset "url_patterns" (PDict records3) entry2 in
                  let p3 := dset domain (PDict entry3) p2 in
                  match (n ←! sum_pattern_counts 0 p3;
                         set_meta "total_patterns" (PInt n) p3) with
                  | Returns p4 =>
                      match (s ←! sum_successes (PInt 0) p4;
                             set_meta "total_successes" s p4) with
                      | Returns p5 =>
                          _save_patterns t_saved (mkExperienceManager p5 file)
                      | Raises e => (Raises e, mkExperienceManager p4 file)
                      end
                  | Raises e => (Raises e, mkExperienceManager p3 file)
                  end
              | Raises e => (Raises e, mkExperienceManager p2 file)
              end
          | Raises e => (Raises e, mkExperienceManager p2 file)
          end
      | _ => (Raises WrongType, mkExperienceManager p2 file)
      end
  | _ => (Raises WrongType, mkExperienceManager p1 file)
  end.

(** The record stored for [(domain, shape)], and its [status] field. *)
Definition stored_record (domain shape : string) (p : pydict) : option pyval :=
  match dget domain p with
  | Some (PDict entry) =>
      match dget "url_patterns" entry with
      | Some (PDict records) => dget shape records
      | _ => None
      end
  | _ => None
  end.

Definition stored_status (domain shape : string) (p : pydict) : option pyval :=
  match stored_record domain shape p with
  | Some (PDict r) => dget "status" r
  | _ => None
  end.

(** A store whose layout is the one [save_pattern] writes: every top-level
    value is a dictionary, [url_patterns] (if present) maps shapes to
    records, and a record's [success_count] (if present) is a number. *)
Definition is_number (v : pyval) : bool :=
  match v with
  | PInt _ | PBool _ | PFloat _ => true
  | _ => false
  end.

Definition wf_record (v : pyval) : bool :=
  match v with
  | PDict r => match dget "success_count" r with
               | Some c => is_number c
               | None => true
               end
  | _ => false
  end.

Definition wf_entry (v : pyval) : bool :=
  match v with
  | PDict e => match dget "url_patterns" e with
               | Some (PDict records) => forallb (λ kv, wf_record kv.2) records
               | Some _ => false
               | None => true
               end
  | _ => false
  end.

Definition well_formed (p : pydict) : bool :=
  dmem "_meta" p && forallb (λ kv, wf_entry kv.2) p.

(** [well_formed] as a proposition. *)
Definition good (p : pydict) : Prop :=
  dmem "_meta" p = true ∧ forallb (λ kv, wf_entry kv.2) p = true.

(** The previous record of a shape, or the empty one. *)
Definition previous (domain shape : string) (p : pydict) : pyval :=
  default (PDict []) (stored_record domain shape p).

(** ** record_failure and get_stats *)

(** [k in v] for a string [k]: key of a dictionary, element of a list,
    substring of a string; other values are not iterable. *)
Definition py_contains (k : string) (v : pyval) : outcome bool :=
  match v with
  | PDict d => Returns (dmem k d)
  | PList l =>
      Returns (existsb (λ x, match x with
                             | PStr s => bool_decide (s = k)
                             | _ => false
                             end) l)
  | PStr s => Returns (match find_sub k s with Some _ => true | None => false end)
  | _ => Raises WrongType
  end.

(** [v[k]] for a string [k]: a dictionary raises [KeyError] on a missing
    key, any other value rejects the string index. *)
Definition py_getitem (k : string) (v : pyval) : outcome pyval :=
  match v with
  | PDict d => match dget k d with
               | Some x => Returns x
               | None => Raises KeyError
               end
  | _ => Raises WrongType
  end.

(** The first part of [record_failure]: the matching record's
    [fail_count] and [last_fail], then [_save_patterns].  [None] is
    returned when no record matches and nothing is written. *)
Definition count_failure (t_fail t_saved : string) (domain url_pattern : string)
    (em : ExperienceManager) : outcome unit * ExperienceManager :=
  match dget domain (patterns em) with
  | None => (Returns tt, em)
  | Some entry =>
      match py_contains "url_patterns" entry with
      | Raises e => (Raises e, em)
      | Returns false => (Returns tt, em)
      | Returns true =>
          match (records ←! py_getitem "url_patterns" entry;
                 found ←! py_contains url_pattern records;
                 Returns (records, found)) with
          | Raises e => (Raises e, em)
          | Returns (_, false) => (Returns tt, em)
          | Returns (records, true) =>
              match (record ←! py_getitem url_pattern records;
                     count ←! py_getitem "fail_count" record;
                     count' ←! py_add count (PInt 1);
                     Returns (record, count')) with
              | Raises e => (Raises e, em)
              | Returns (PDict r, count') =>
                  match entry, records with
                  | PDict entry_d, PDict records_d =>
                      let r1 := dset "fail_count" count' r in
                      let r2 := dset "last_fail" (PStr t_fail) r1 in
                      let records' := dset url_pattern (PDict r2) records_d in
                      let entry' := dset "url_patterns" (PDict records') entry_d in
                      _save_patterns t_saved
                        (mkExperienceManager
                           (dset domain (PDict entry') (patterns em))
                           (patterns_file em))
                  | _, _ => (Raises WrongType, em)
                  end
              | Returns (_, _) => (Raises WrongType, em)
              end
          end
      end
  end.

Definition newline : string := String (ascii_of_nat 10) EmptyString.

(** [x or 'To be determined'] *)
Definition or_tbd (x : string) : string :=
  match x with
  | EmptyString => "To be determined"
  | _ => x
  end.

(** The entry appended to the lessons file; [today] is the clock
    formatted as year-month-day. *)
Definition lesson_entry (today domain url_pattern u error cause solution : string)
    : string :=
  String.concat EmptyString
    [newline; "## ["; today; "] "; domain; " - "; url_pattern; newline;
     newline; "**Task**: Scraping "; u; newline;
     newline; "**Error**:"; newline;
     "- Type: "; error; newline;
     "- Details: See above"; newline;
     newline; "**Root Cause**: "; or_tbd cause; newline;
     newline; "**Resolution**: "; or_tbd solution; newline;
     newline; "**Tags**: #auto-logged"; newline;
     newline; "---"; newline].

Definition lessons_marker : string := "<!-- New entries go below this line -->".

(** The new content of the lessons file: the entry goes right after the
    marker, between [parts[0]] and [parts[1]] of
    [existing.split(marker)], or at the end when there is no marker. *)
Definition insert_lesson (existing entry : string) : string :=
  match find_sub lessons_marker existing with
  | Some (before, after) =>
      let part1 := match find_sub lessons_marker after with
                   | Some (mid, _) => mid
                   | None => after
                   end in
      String.append before (String.append lessons_marker (String.append entry part1))
  | None => String.append existing entry
  end.

(** [record_failure(url, error, cause, solution)]; [lessons] is the
    content of the lessons file ([None] if it does not exist).  An
    exception in the first part leaves the lessons file alone. *)
Definition record_failure (t_fail t_saved today : string)
    (u error cause solution : string)
    (em : ExperienceManager) (lessons : option string)
    : outcome unit * ExperienceManager * option string :=
  let parsed := urlparse u in
  let domain := netloc parsed in
  let url_pattern := _url_to_pattern u in
  match count_failure t_fail t_saved domain url_pattern em with
  | (Raises e, em') => (Raises e, em', lessons)
  | (Returns _, em') =>
      let entry := lesson_entry today domain url_pattern u error cause solution in
      let existing := default EmptyString lessons in
      (Returns tt, em', Some (insert_lesson existing entry))
  end.

(** [get_stats] *)
Record Stats : Type := mkStats {
  total_domains : Z;
  total_patterns : pyval;
  total_successes : pyval;
  last_updated : pyval
}.

Definition get_stats (em : ExperienceManager) : outcome Stats :=
  meta ←! py_getitem "_meta" (PDict (patterns em));
  meta_d ←! as_dict meta;
  Returns
    {| total_domains :=
         Z.of_nat (length (filter (λ kv, kv.1 ≠ "_meta") (patterns em)));
       total_patterns := dget_or "total_patterns" (PInt 0) meta_d;
       total_successes := dget_or "total_successes" (PInt 0) meta_d;
       last_updated := dget_or "last_updated" PNone meta_d |}.

(** [calculate_url_similarity] *)
Definition count_same (l1 l2 : list string) : nat :=
  length (filter (λ ab, ab.1 = ab.2) (zip l1 l2)).

Definition calculate_url_similarity (url1 url2 : string) : Q :=
  let parsed1 := urlparse url1 in
  let parsed2 := urlparse url2 in
  if negb (bool_decide (netloc parsed1 = netloc parsed2)) then 0%Q
  else
    let path1 := split_on "/" (path parsed1) in
    let path2 := split_on "/" (path parsed2) in
    if negb (bool_decide (length path1 = length path2)) then (3 # 10)%Q
    else (inject_Z (Z.of_nat (count_same path1 path2)) /
          inject_Z (Z.of_nat (Nat.max (length path1) (length path2))))%Q.

(** ** Example store *)

(** A store with one learned shape, retired by hand. *)
Definition articles_record : pyval :=
  PDict [("description", PStr "articles"); ("success_count", PInt 3);
         ("fail_count", PInt 1); ("status", PStr "retired")].

Definition articles_store : ExperienceManager :=
  {| patterns :=
       [("_meta", PDict [("version", PStr "1.0.0"); ("total_patterns", PInt 1);
                         ("total_successes", PInt 3)]);
        ("example.com",
         PDict [("url_patterns", PDict [("/articles/*", articles_record)])])];
     patterns_file := None |}.

(** A store whose [_meta] totals are out of date. *)
Definition stale_store : ExperienceManager :=
  {| patterns :=
       [("_meta", PDict [("total_patterns", PInt 40); ("total_successes", PInt 99)]);
        ("example.com",
         PDict [("url_patterns", PDict [("/articles/*", articles_record)])])];
     patterns_file := None |}.

(** A store holding a record written by hand, without [fail_count]. *)
Definition bare_store : ExperienceManager :=
  {| patterns :=
       [("_meta", PDict []);
        ("example.com",
         PDict [("url_patterns",
                 PDict [("/articles/*", PDict [("success_count", PInt 3)])])])];
     patterns_file := None |}.

End Experience.

(* ===================================================================== *)
(** * concurrent_scraper.py: semaphores and _scrape_single                *)
(* ===================================================================== *)

Module Scraper.
Import PyLib.

(** [@dataclass class ConcurrencyConfig] *)
Record ConcurrencyConfig : Type := mkConcurrencyConfig {
  max_concurrent : Z;
  max_per_domain : Z;
  global_rate_limit : Q;
  per_domain_rate_limit : Q;
  min_delay : Q;
  max_delay : Q;
  max_retries : Z;
  retry_base_delay : Q;
  retry_max_delay : Q;
  request_timeout : Z;
  total_timeout : option Z;
  headless : bool;
  user_agent : option string;
  proxy : option string;
  enable_progress : bool;
  progress_task_id : option string
}.

(** [@dataclass class ScrapeResult], without its two clock readings
    [duration_ms] and [timestamp]. *)
Record ScrapeResult : Type := mkScrapeResult {
  url : string;
  success : bool;
  title : string;
  content : string;
  markdown : string;
  error : option string;
  status_code : option Z;
  retry_count : Z
}.

(** What the crawl of one URL yields: a result object with
    [result.success] set (title, cleaned html and markdown already
    defaulted to the empty string), one with it unset, or an exception
    out of the crawler. *)
Inductive crawl_response : Type :=
| CrawlOk (title content markdown : string)
| CrawlFailed (error_message : option string)
| CrawlRaised (e : exn).

(** The surroundings of one scraper: whether the [crawl4ai] import
    succeeded, what the crawler answers at each retry index, and the
    values drawn from the clock and from [random.uniform]. *)
Record Env : Type := mkEnv {
  CRAWL4AI_AVAILABLE : bool;
  crawl : string → Z → crawl_response;
  clock : Z → string;
  jitter : Z → Q
}.

Inductive semaphore : Type :=
| DomainSem (domain : string)
| GlobalSem.

(** The effects of a scrape that other components observe, in program
    order. *)
Inductive event : Type :=
| RateLimited (url : string)
| Acquired (s : semaphore)
| Released (s : semaphore)
| Crawled (url : string)
| Slept (seconds : Q).

(** [class ConcurrentScraper], with [DomainSemaphoreManager] inlined:
    [semaphores] maps each origin whose semaphore exists to its free
    permits, [global_semaphore] is the free permits of the global one,
    [retried] is [stats["retried"]], and [log] records the effects. *)
Record ConcurrentScraper : Type := mkScraper {
  config : ConcurrencyConfig;
  semaphores : gmap string Z;
  global_semaphore : Z;
  progress : option Progress.ProgressManager;
  retried : Z;
  _shutdown : bool;
  log : list event
}.

Definition with_semaphores (m : gmap string Z) (s : ConcurrentScraper) : ConcurrentScraper :=
  mkScraper (config s) m (global_semaphore s) (progress s) (retried s) (_shutdown s) (log s).

Definition with_global_semaphore (v : Z) (s : ConcurrentScraper) : ConcurrentScraper :=
  mkScraper (config s) (semaphores s) v (progress s) (retried s) (_shutdown s) (log s).

Definition with_progress (p : option Progress.ProgressManager) (s : ConcurrentScraper) : ConcurrentScraper :=
  mkScraper (config s) (semaphores s) (global_semaphore s) p (retried s) (_shutdown s) (log s).

Definition with_retried (n : Z) (s : ConcurrentScraper) : ConcurrentScraper :=
  mkScraper (config s) (semaphores s) (global_semaphore s) (progress s) n (_shutdown s) (log s).

Definition with_log (l : list event) (s : ConcurrentScraper) : ConcurrentScraper :=
  mkScraper (config s) (semaphores s) (global_semaphore s) (progress s) (retried s) (_shutdown s) l.

(** How a coroutine leaves a piece of code: with a value, with an
    exception, or suspended on a semaphore that has no free permit (in
    this one-task view nobody can release it). *)
Inductive result (A : Type) : Type :=
| Val (a : A)
| Exc (e : exn)
| Suspended.
Arguments Val {A} a.
Arguments Exc {A} e.
Arguments Suspended {A}.

Definition M (A : Type) : Type := ConcurrentScraper → result A * ConcurrentScraper.

Definition ret {A : Type} (a : A) : M A := λ s, (Val a, s).

Definition raise {A : Type} (e : exn) : M A := λ s, (Exc e, s).

Definition bind {A B : Type} (m : M A) (k : A → M B) : M B :=
  λ s, match m s with
       | (Val a, s') => k a s'
       | (Exc e, s') => (Exc e, s')
       | (Suspended, s') => (Suspended, s')
       end.

Notation "m ;>> k" := (bind m (λ _, k))
  (at level 100, right associativity, only parsing).

Definition emit (e : event) : M unit :=
  λ s, (Val tt, with_log (log s ++ [e]) s).

(** [try: body finally: cleanup] *)
Definition try_finally {A : Type} (body : M A) (cleanup : M unit) : M A :=
  λ s, match body s with
       | (Suspended, s') => (Suspended, s')
       | (r, s') =>
           match cleanup s' with
           | (Val _, s'') => (r, s'')
           | (Exc e, s'') => (Exc e, s'')
           | (Suspended, s'') => (Suspended, s'')
           end
       end.

(** [try: body except Exception as e: handler(e)] *)
Definition try_except {A : Type} (body : M A) (handler : exn → M A) : M A :=
  λ s, match body s with
       | (Exc e, s') => if is_Exception e then handler e s' else (Exc e, s')
       | other => other
       end.

(** [DomainSemaphoreManager.acquire]: create the origin's semaphore with
    [max_per_domain] permits if it is missing ([asyncio.Semaphore] rejects a
    negative value), then take one permit. *)
Definition domain_acquire (u : string) : M unit :=
  λ s,
    let domain := netloc (urlparse u) in
    match semaphores s !! domain with
    | None =>
        let v := max_per_domain (config s) in
        if v <? 0 then (Exc ValueError, s)
        else if 0 <? v
             then emit (Acquired (DomainSem domain))
                    (with_semaphores (<[domain := v - 1]> (semaphores s)) s)
             else (Suspended, with_semaphores (<[domain := v]> (semaphores s)) s)
    | Some v =>
        if 0 <? v
        then emit (Acquired (DomainSem domain))
               (with_semaphores (<[domain := v - 1]> (semaphores s)) s)
        else (Suspended, s)
    end.

(** [DomainSemaphoreManager.release] *)
Definition domain_release (u : string) : M unit :=
  λ s,
    let domain := netloc (urlparse u) in
    match semaphores s !! domain with
    | Some v =>
        emit (Released (DomainSem domain))
          (with_semaphores (<[domain := v + 1]> (semaphores s)) s)
    | None => (Val tt, s)
    end.

(** [self.global_semaphore.acquire()] and [.release()] *)
Definition global_acquire : M unit :=
  λ s,
    if 0 <? global_semaphore s
    then emit (Acquired GlobalSem) (with_global_semaphore (global_semaphore s - 1) s)
    else (Suspended, s).

Definition global_release : M unit :=
  λ s, emit (Released GlobalSem) (with_global_semaphore (global_semaphore s + 1) s).

(** [text[:n]] *)
Definition str_take (n : nat) (text : string) : string := String.substring 0 n text.

(** [self.progress.mark_completed(url, {...})] / [mark_failed] when
    progress tracking is on. *)
Definition progress_mark_completed (now u : string) (data : pydict) : M unit :=
  λ s, match progress s with
       | Some pm =>
           (Val tt, with_progress (Some (Progress.mark_completed now now u (Some data) pm)) s)
       | None => (Val tt, s)
       end.

Definition progress_mark_failed (now u msg : string) : M unit :=
  λ s, match progress s with
       | Some pm => (Val tt, with_progress (Some (Progress.mark_failed now u msg pm)) s)
       | None => (Val tt, s)
       end.

(** The body of the inner [try] of [_scrape_single]. *)
Definition fetch (env : Env) (u : string) (rc : Z) : M ScrapeResult :=
  if negb (CRAWL4AI_AVAILABLE env) then
    ret (mkScrapeResult u false "" "" "" (Some "Crawl4AI not installed") None 0)
  else
    emit (Crawled u) ;>>
    match crawl env u rc with
    | CrawlOk t c m =>
        let scrape_result := mkScrapeResult u true t c m None None rc in
        progress_mark_completed (clock env rc) u
          [("title", PStr t); ("content", PStr (str_take 1000 m))] ;>>
        ret scrape_result
    | CrawlFailed msg =>
        raise (Exception (match msg with
                          | Some (String c r) => String c r
                          | _ => "Unknown error"
                          end))
    | CrawlRaised e => raise e
    end.

(** The body of the outer [try]: rate limit, the two acquisitions, then
    the fetch under [try ... finally] with the two releases. *)
Definition attempt (env : Env) (u : string) (rc : Z) : M ScrapeResult :=
  emit (RateLimited u) ;>>
  domain_acquire u ;>>
  global_acquire ;>>
  try_finally (fetch env u rc)
              (domain_release u ;>> global_release).

(** [str(e)] *)
Definition str_of_exn (e : exn) : string :=
  match e with
  | Exception msg => msg
  | _ => ""
  end.

(** [min(retry_base_delay * 2 ** retry_count, retry_max_delay)] *)
Definition backoff_delay (c : ConcurrencyConfig) (rc : Z) : Q :=
  Qmin (retry_base_delay c * inject_Z (2 ^ rc)) (retry_max_delay c).

(** [_scrape_single(url, retry_count)].  The recursion of the retry is on
    [retries_left], the number of retries still allowed, which is
    [max_retries - retry_count] ([_scrape_single] below): the source's
    test [retry_count < max_retries] holds exactly when it is positive. *)
Fixpoint scrape_from (retries_left : nat) (env : Env) (u : string) (rc : Z)
    : M ScrapeResult :=
  λ s,
    if match progress s with
       | Some pm => Progress.is_completed u pm
       | None => false
       end
    then (Val (mkScrapeResult u true "" "" "" (Some "Already completed (skipped)") None 0), s)
    else if _shutdown s
    then (Val (mkScrapeResult u false "" "" "" (Some "Shutdown requested") None 0), s)
    else
      try_except (attempt env u rc)
        (λ e s1,
           let error_msg := str_of_exn e in
           let report_failed :=
             (progress_mark_failed (clock env rc) u error_msg ;>>
              ret (mkScrapeResult u false "" "" "" (Some error_msg) None rc)) in
           match retries_left with
           | S k =>
               if negb (_shutdown s1) then
                 (emit (Slept (backoff_delay (config s1) rc + jitter env rc)%Q) ;>>
                  scrape_from k env u (rc + 1))
                   (with_retried (retried s1 + 1) s1)
               else report_failed s1
           | O => report_failed s1
           end)
        s.

Definition _scrape_single (env : Env) (u : string) (rc : Z) : M ScrapeResult :=
  λ s, scrape_from (Z.to_nat (max_retries (config s) - rc)) env u rc s.

(** The semaphore operations in a log, in order. *)
Definition is_semaphore_event (e : event) : bool :=
  match e with
  | Acquired _ | Released _ => true
  | _ => false
  end.

Definition semaphore_events (l : list event) : list event :=
  filter (λ e, Is_true (is_semaphore_event e)) l.

(** The result with which an attempt leaves, by what the crawler did. *)
Definition attempt_result (env : Env) (u : string) (rc : Z) : result ScrapeResult :=
  if negb (CRAWL4AI_AVAILABLE env) then
    Val (mkScrapeResult u false "" "" "" (Some "Crawl4AI not installed") None 0)
  else
    match crawl env u rc with
    | CrawlOk t c m => Val (mkScrapeResult u true t c m None None rc)
    | CrawlFailed (Some (String c r)) => Exc (Exception (String c r))
    | CrawlFailed _ => Exc (Exception "Unknown error")
    | CrawlRaised e => Exc e
    end.

(** A scraper as [__init__] builds it, with default configuration and
    progress tracking off, and a crawler that fails on first contact. *)
Definition default_config : ConcurrencyConfig :=
  {| max_concurrent := 5; max_per_domain := 2;
     global_rate_limit := 10; per_domain_rate_limit := 2;
     min_delay := 1; max_delay := 3;
     max_retries := 3; retry_base_delay := 5; retry_max_delay := 60;
     request_timeout := 30000; total_timeout := None;
     headless := true; user_agent := None; proxy := None;
     enable_progress := false; progress_task_id := None |}.

Definition new_scraper : ConcurrentScraper :=
  {| config := default_config; semaphores := ∅;
     global_semaphore := max_concurrent default_config;
     progress := None; retried := 0; _shutdown := false; log := [] |}.

Definition flaky : Env :=
  {| CRAWL4AI_AVAILABLE := true;
     crawl := λ _ rc, if rc =? 0 then CrawlFailed (Some "HTTP 503")
                      else CrawlOk "Title" "<p>hi</p>" "hi";
     clock := λ _, "2024-01-01T00:00:00";
     jitter := λ _, 0%Q |}.

(** The progress manager after one attempt: only a successful crawl
    changes it, by recording the completion. *)
Definition progress_after (env : Env) (u : string) (rc : Z)
    (p : option Progress.ProgressManager) : option Progress.ProgressManager :=
  match p with
  | Some pm =>
      if CRAWL4AI_AVAILABLE env then
        match crawl env u rc with
        | CrawlOk t c m =>
            Some (Progress.mark_completed (clock env rc) (clock env rc) u
                    (Some [("title", PStr t); ("content", PStr (str_take 1000 m))]) pm)
        | _ => Some pm
        end
      else Some pm
  | None => None
  end.

(** The semaphore events of [k] attempts on one origin. *)
Fixpoint attempts_events (domain : string) (k : nat) : list event :=
  match k with
  | O => []
  | S k' =>
      [Acquired (DomainSem domain); Acquired GlobalSem;
       Released (DomainSem domain); Released GlobalSem] ++ attempts_events domain k'
  end.

Definition is_crawl_event (e : event) : bool :=
  match e with Crawled _ => true | _ => false end.

(** The number of times the crawler was called, by the log. *)
Definition crawls (l : list event) : nat :=
  length (filter (λ e, Is_true (is_crawl_event e)) l).

(** The free permits of an origin's semaphore, an origin whose semaphore
    does not exist yet having all of them. *)
Definition free_permits (domain : string) (s : ConcurrentScraper) : Z :=
  default (max_per_domain (config s)) (semaphores s !! domain).

(** Whether the progress manager, if any, has the URL as completed. *)
Definition tracked_completed (u : string) (s : ConcurrentScraper) : bool :=
  match progress s with
  | Some pm => Progress.is_completed u pm
  | None => false
  end.

(** A crawler whose every call is cancelled, and one that always fails. *)
Definition cancelled : Env :=
  {| CRAWL4AI_AVAILABLE := true;
     crawl := λ _ _, CrawlRaised CancelledError;
     clock := λ _, "2024-01-01T00:00:00";
     jitter := λ _, 0%Q |}.

Definition always_failing : Env :=
  {| CRAWL4AI_AVAILABLE := true;
     crawl := λ _ _, CrawlFailed (Some "HTTP 500");
     clock := λ _, "2024-01-01T00:00:00";
     jitter := λ _, 0%Q |}.

(** A scraper with progress tracking on, for a new task. *)
Definition tracking_scraper : ConcurrentScraper :=
  with_progress (Some Progress.fresh) new_scraper.

End Scraper.

(* ===================================================================== *)
(** * concurrent_scraper.py: DomainRateLimiter                            *)
(* ===================================================================== *)

Module DomainLimiter.
Import PyLib.

(** [class DomainRateLimiter]; its lock makes the lazy creation atomic. *)
Record DomainRateLimiter : Type := mkDomainRateLimiter {
  config : Scraper.ConcurrencyConfig;
  global_limiter : TokenBucket.TokenBucketRateLimiter;
  domain_limiters : gmap string TokenBucket.TokenBucketRateLimiter
}.

(** [__init__(config)] at monotonic time [now] *)
Definition init (c : Scraper.ConcurrencyConfig) (now : Q) : DomainRateLimiter :=
  {| config := c;
     global_limiter := TokenBucket.init (Scraper.global_rate_limit c) None now;
     domain_limiters := ∅ |}.

(** [_get_domain] *)
Definition _get_domain (u : string) : string := netloc (urlparse u).

(** [acquire(url)].  [t_new], [t_global] and [t_domain] are the monotonic
    clock read when the origin's limiter is created, by the global
    [acquire] and by the origin's [acquire]; [jitter] is the value drawn
    by [random.uniform(min_delay, max_delay)].  The result is the sum
    returned, and the limiter after the call. *)
Definition acquire (t_new t_global t_domain jitter : Q) (u : string)
    (d : DomainRateLimiter) : outcome Q * DomainRateLimiter :=
  let domain := _get_domain u in
  let limiters :=
    match domain_limiters d !! domain with
    | Some _ => domain_limiters d
    | None =>
        <[domain := TokenBucket.init (Scraper.per_domain_rate_limit (config d)) None t_new]>
          (domain_limiters d)
    end in
  match TokenBucket.acquire t_global 1 (global_limiter d) with
  | (Raises e, g) => (Raises e, mkDomainRateLimiter (config d) g limiters)
  | (Returns global_wait, g) =>
      match limiters !! domain with
      | Some b =>
          match TokenBucket.acquire t_domain 1 b with
          | (Raises e, b') =>
              (Raises e, mkDomainRateLimiter (config d) g (<[domain := b']> limiters))
          | (Returns domain_wait, b') =>
              (Returns (global_wait + domain_wait + jitter)%Q,
               mkDomainRateLimiter (config d) g (<[domain := b']> limiters))
          end
      | None => (Raises KeyError, mkDomainRateLimiter (config d) g limiters)
      end
  end.

(** Every limiter of the registry has a positive rate. *)
Definition positive_rates (d : DomainRateLimiter) : Prop :=
  (0 < TokenBucket.rate (global_limiter d))%Q ∧
  (0 < Scraper.per_domain_rate_limit (config d))%Q ∧
  ∀ k b, domain_limiters d !! k = Some b → (0 < TokenBucket.rate b)%Q.

End DomainLimiter.

(* ===================================================================== *)
(** * Facts about dictionaries                                            *)
(* ===================================================================== *)

Section OrderedDictFacts.
Context {V : Type}.
Implicit Types (d : list (string * V)) (k : string) (v : V).

Lemma dget_dset_eq k v d : dget k (dset k v d) = Some v.
Proof.
  induction d as [|[k' v'] d IH]; simpl.
  - by rewrite decide_True.
  - destruct (decide (k = k')) as [->|Hne]; simpl.
    + by rewrite decide_True.
    + by rewrite decide_False.
Qed.

Lemma dget_dset_ne k k' v d : k ≠ k' → dget k' (dset k v d) = dget k' d.
Proof.
  intros Hne. induction d as [|[k0 v0] d IH]; simpl.
  - by rewrite decide_False.
  - destruct (decide (k = k0)) as [->|Hk]; simpl.
    + by rewrite !decide_False.
    + by rewrite IH.
Qed.

Lemma dmem_dset_eq k v d : dmem k (dset k v d) = true.
Proof. unfold dmem. by rewrite dget_dset_eq. Qed.

Lemma dmem_dset_ne k k' v d : k ≠ k' → dmem k' (dset k v d) = dmem k' d.
Proof. intros. unfold dmem. by rewrite dget_dset_ne. Qed.

(** A property of the values that holds of a dictionary and of [v] holds
    after [d[k] = v]. *)
Lemma forallb_dset (P : V → bool) k v d :
  forallb (λ kv, P kv.2) d = true → P v = true →
  forallb (λ kv, P kv.2) (dset k v d) = true.
Proof.
  intros Hd Hv. induction d as [|[k0 v0] d IH]; simpl in *.
  - by rewrite Hv.
  - apply andb_prop in Hd as [H0 Hd].
    destruct (decide (k = k0)); simpl.
    + by rewrite Hv, Hd.
    + by rewrite H0, IH.
Qed.

Lemma forallb_dget (P : V → bool) k v d :
  forallb (λ kv, P kv.2) d = true → dget k d = Some v → P v = true.
Proof.
  intros Hd. induction d as [|[k0 v0] d IH]; simpl in *; [done|].
  apply andb_prop in Hd as [H0 Hd].
  destruct (decide (k = k0)); [congruence | auto].
Qed.
End OrderedDictFacts.

(* ===================================================================== *)
(** * ProgressManager: completion, failure, resume                        *)
(* ===================================================================== *)

Module ProgressFacts.
Import Progress.

(** The auto-save touches the timestamp, the counter and the file only. *)
Lemma maybe_auto_save_state now pm :
  let pm' := _maybe_auto_save now pm in
  completed_url_list (state pm') = completed_url_list (state pm) ∧
  failed_url_list (state pm') = failed_url_list (state pm) ∧
  completed_urls (state pm') = completed_urls (state pm) ∧
  failed_urls (state pm') = failed_urls (state pm) ∧
  scraped_data (state pm') = scraped_data (state pm) ∧
  urls_to_scrape (state pm') = urls_to_scrape (state pm) ∧
  _completed_set pm' = _completed_set pm.
Proof.
  unfold _maybe_auto_save. destruct (auto_save pm); simpl; [|done].
  destruct (Z.leb _ _); simpl; done.
Qed.

(** What [mark_completed] does to the fields the specification talks
    about. *)
Lemma mark_completed_effect t now u data pm :
  let pm' := mark_completed t now u data pm in
  completed_url_list (state pm') =
    (if decide (u ∈ _completed_set pm) then completed_url_list (state pm)
     else completed_url_list (state pm) ++ [u]) ∧
  completed_urls (state pm') =
    (if decide (u ∈ _completed_set pm) then completed_urls (state pm)
     else completed_urls (state pm) + 1) ∧
  _completed_set pm' = {[u]} ∪ _completed_set pm ∧
  failed_url_list (state pm') = failed_url_list (state pm) ∧
  urls_to_scrape (state pm') = urls_to_scrape (state pm) ∧
  scraped_data (state pm') =
    scraped_data (state pm) ++
    match data with
    | Some d => if truthy_dict data then [stamp t u d] else []
    | None => []
    end.
Proof.
  unfold mark_completed.
  cbv zeta.
  match goal with |- context [_maybe_auto_save now ?x] =>
    pose proof (maybe_auto_save_state now x) as H; cbv zeta in H;
    destruct H as (-> & -> & -> & _ & -> & -> & ->)
  end.
  destruct data as [d|]; [destruct (truthy_dict (Some d))|];
    destruct (decide (u ∈ _completed_set pm)); simpl;
    rewrite ?app_nil_r; repeat split; try done; set_solver.
Qed.

Lemma mark_failed_effect now u err pm :
  let pm' := mark_failed now u err pm in
  failed_url_list (state pm') =
    (if decide (u ∈ failed_url_list (state pm)) then failed_url_list (state pm)
     else failed_url_list (state pm) ++ [u]) ∧
  completed_url_list (state pm') = completed_url_list (state pm) ∧
  completed_urls (state pm') = completed_urls (state pm) ∧
  _completed_set pm' = _completed_set pm ∧
  urls_to_scrape (state pm') = urls_to_scrape (state pm) ∧
  scraped_data (state pm') = scraped_data (state pm).
Proof.
  unfold mark_failed.
  cbv zeta.
  match goal with |- context [_maybe_auto_save now ?x] =>
    pose proof (maybe_auto_save_state now x) as H; cbv zeta in H;
    destruct H as (-> & -> & -> & _ & -> & -> & ->)
  end.
  destruct (decide (u ∈ failed_url_list (state pm))); simpl; done.
Qed.

(** The constructor establishes the mirror invariant; the two marking
    methods keep it. *)
Lemma init_synced tid url autosave interval on_disk now :
  set_synced (init tid url autosave interval on_disk now).
Proof. reflexivity. Qed.

Lemma mark_completed_synced t now u data pm :
  set_synced pm → set_synced (mark_completed t now u data pm).
Proof.
  unfold set_synced. intros Hs.
  destruct (mark_completed_effect t now u data pm) as (-> & _ & -> & _).
  destruct (decide (u ∈ _completed_set pm)) as [Hin|Hout].
  - rewrite <- Hs. set_solver.
  - rewrite list_to_set_app_L, <- Hs. set_solver.
Qed.

Lemma mark_failed_synced now u err pm :
  set_synced pm → set_synced (mark_failed now u err pm).
Proof.
  unfold set_synced. intros Hs.
  destruct (mark_failed_effect now u err pm) as (_ & -> & _ & -> & _). done.
Qed.

Lemma run_synced cs pm : set_synced pm → set_synced (run cs pm).
Proof.
  revert pm. induction cs as [|c cs IH]; intros pm Hs; [done|].
  simpl. apply IH. destruct c; simpl;
    [by apply mark_completed_synced | by apply mark_failed_synced].
Qed.

Lemma mark_completed_nodup t now u data pm :
  set_synced pm →
  NoDup (completed_url_list (state pm)) →
  NoDup (completed_url_list (state (mark_completed t now u data pm))).
Proof.
  intros Hs Hnd.
  destruct (mark_completed_effect t now u data pm) as (-> & _).
  destruct (decide (u ∈ _completed_set pm)) as [Hin|Hout]; [done|].
  apply NoDup_app. split_and!; [done | | apply NoDup_singleton].
  intros x Hx Hxu. apply list_elem_of_singleton in Hxu as ->.
  apply Hout. rewrite Hs. by apply elem_of_list_to_set.
Qed.

Lemma stamp_is_entry t u d : is_entry_for u (stamp t u d) = true.
Proof.
  unfold is_entry_for, stamp. rewrite dget_dset_eq. by apply bool_decide_eq_true.
Qed.

Lemma entries_for_app u l1 l2 :
  entries_for u (l1 ++ l2) = entries_for u l1 ++ entries_for u l2.
Proof. unfold entries_for. apply filter_app. Qed.

Lemma occurrences_snoc (u v : string) (l : list string) :
  length (filter (λ x, x = u) (l ++ [v])) =
  (length (filter (λ x, x = u) l) + (if decide (v = u) then 1 else 0))%nat.
Proof.
  rewrite filter_app, length_app. f_equal.
  rewrite filter_cons, filter_nil. by destruct (decide (v = u)).
Qed.

Lemma occurrences_absent (u : string) (l : list string) :
  u ∉ l → length (filter (λ x, x = u) l) = 0%nat.
Proof.
  intros Hout. induction l as [|x l IH]; [done|].
  rewrite filter_cons. destruct (decide (x = u)) as [->|Hne].
  - exfalso. apply Hout. left.
  - apply IH. intros Hin. apply Hout. by right.
Qed.

Lemma occurrences_nodup (u : string) (l : list string) :
  NoDup l → u ∈ l → length (filter (λ x, x = u) l) = 1%nat.
Proof.
  induction 1 as [|x l Hx Hnd IH]; intros Hin.
  - by apply elem_of_nil in Hin.
  - rewrite filter_cons. destruct (decide (x = u)) as [->|Hne]; simpl.
    + by rewrite occurrences_absent.
    + apply IH. apply elem_of_cons in Hin as [->|Hin]; done.
Qed.

End ProgressFacts.

(* ===================================================================== *)
(** * Theorems about ProgressManager                                      *)
(* ===================================================================== *)

Module ProgressTheorems.
Import Progress ProgressFacts.





Lemma run_completed_subset cs pm u :
  u ∈ completed_url_list (state (run cs pm)) →
  u ∈ completed_url_list (state pm) ∨ u ∈ urls_marked_completed cs.
Proof.
  revert pm. induction cs as [|c cs IH]; intros pm Hin; [by left|].
  simpl in Hin. apply IH in Hin as [Hin|Hin].
  - destruct c as [t now v data|now v err]; simpl in Hin.
    + destruct (mark_completed_effect t now v data pm) as (Hl & _).
      rewrite Hl in Hin. destruct (decide (v ∈ _completed_set pm)); [by left|].
      apply elem_of_app in Hin as [Hin|Hin]; [by left|].
      right. apply list_elem_of_singleton in Hin as ->. simpl. left.
    + destruct (mark_failed_effect now v err pm) as (_ & Hl & _).
      rewrite Hl in Hin. by left.
  - right. destruct c; simpl; [by right | done].
Qed.

Lemma run_failed_subset cs pm u :
  u ∈ failed_url_list (state (run cs pm)) →
  u ∈ failed_url_list (state pm) ∨ u ∈ urls_marked_failed cs.
Proof.
  revert pm. induction cs as [|c cs IH]; intros pm Hin; [by left|].
  simpl in Hin. apply IH in Hin as [Hin|Hin].
  - destruct c as [t now v data|now v err]; simpl in Hin.
    + destruct (mark_completed_effect t now v data pm) as (_ & _ & _ & Hl & _).
      rewrite Hl in Hin. by left.
    + destruct (mark_failed_effect now v err pm) as (Hl & _).
      rewrite Hl in Hin.
      destruct (decide (v ∈ failed_url_list (state pm))); [by left|].
      apply elem_of_app in Hin as [Hin|Hin]; [by left|].
      right. apply list_elem_of_singleton in Hin as ->. simpl. left.
  - right. destruct c; simpl; [done | by right].
Qed.



(** C5: [get_remaining_urls] is the worklist minus the union of the
    completed and the failed URLs, in worklist order; no failed and no
    completed URL is returned; and with worklist [A,B,C,D], completed list
    [A,B] and no failure it returns exactly [C,D]. *)
Theorem get_remaining_urls_correct pm :
  set_synced pm →
  get_remaining_urls pm = remaining_spec (state pm) ∧
  (∀ u, u ∈ failed_url_list (state pm) → u ∉ get_remaining_urls pm) ∧
  (∀ u, u ∈ completed_url_list (state pm) → u ∉ get_remaining_urls pm) ∧
  (∀ u, u ∈ get_remaining_urls pm → u ∈ urls_to_scrape (state pm)) ∧
  (∀ A B C D : string,
     urls_to_scrape (state pm) = [A; B; C; D] →
     completed_url_list (state pm) = [A; B] →
     failed_url_list (state pm) = [] →
     C ∉ [A; B] → D ∉ [A; B] →
     get_remaining_urls pm = [C; D]).
Proof.
  intros Hs.
  assert (Hmem : ∀ u, u ∈ _completed_set pm ↔ u ∈ completed_url_list (state pm)).
  { intros u. rewrite Hs. apply elem_of_list_to_set. }
  assert (Heq : get_remaining_urls pm = remaining_spec (state pm)).
  { unfold get_remaining_urls, remaining_spec. apply list_filter_iff.
    intros u. rewrite elem_of_union, !elem_of_list_to_set, Hmem. tauto. }
  split; [exact Heq|].
  unfold get_remaining_urls in *.
  repeat split.
  - intros u Hf Hin. apply list_elem_of_filter in Hin as [[_ Hnf] _]. done.
  - intros u Hc Hin. apply list_elem_of_filter in Hin as [[Hnc _] _].
    by apply Hnc, Hmem.
  - intros u Hin. by apply list_elem_of_filter in Hin as [_ Hin].
  - intros A B C D -> Hc Hf HC HD.
    assert (HA : A ∈ _completed_set pm) by (apply Hmem; rewrite Hc; left).
    assert (HB : B ∈ _completed_set pm) by (apply Hmem; rewrite Hc; right; left).
    assert (HC' : C ∉ _completed_set pm) by (by rewrite Hmem, Hc).
    assert (HD' : D ∉ _completed_set pm) by (by rewrite Hmem, Hc).
    rewrite Hf.
    rewrite filter_cons_False by (intros [? _]; done).
    rewrite filter_cons_False by (intros [? _]; done).
    rewrite filter_cons_True by (split; [done | apply not_elem_of_nil]).
    rewrite filter_cons_True by (split; [done | apply not_elem_of_nil]).
    by rewrite filter_nil.
Qed.

Lemma get_remaining_urls_correct_witness : get_remaining_urls resumed = ["C"; "D"].
Proof.
  destruct (get_remaining_urls_correct resumed) as (_ & _ & _ & _ & H).
  - reflexivity.
  - apply (H "A" "B" "C" "D"); try reflexivity;
      intros Hin; repeat (apply elem_of_cons in Hin as [Hin|Hin]; [discriminate Hin|]);
      by apply elem_of_nil in Hin.
Defined.

End ProgressTheorems.

(* ===================================================================== *)
(** * Theorems about AdaptiveRateLimiter                                  *)
(* ===================================================================== *)

Module BackoffTheorems.
Import Backoff.

Lemma BlockLevel_of_value l : BlockLevel_of (value l) = Returns l.
Proof. by destruct l. Qed.

Lemma BlockLevel_of_range v :
  0 ≤ v ≤ 3 → ∃ l, BlockLevel_of v = Returns l ∧ value l = v.
Proof.
  intros Hv.
  assert (Hcases : v = 0 ∨ v = 1 ∨ v = 2 ∨ v = 3) by lia.
  destruct Hcases as [-> | [-> | [-> | ->]]]; eauto.
Qed.

Lemma value_range l : 0 ≤ value l ≤ 3.
Proof. destruct l; simpl; lia. Qed.

Lemma escalation_range c : escalation c = 1 ∨ escalation c = 2.
Proof.
  destruct c as [z|]; simpl; [|by left].
  destruct ((z =? 429) || (z =? 403)); [by right | by left].
Qed.

(** One failure: the call returns, and the new level is
    [min(current + escalation, SEVERE)]. *)
Lemma report_failure_level c l :
  ∃ l', report_failure c l = Returns l' ∧
        value (block_level l') =
          Z.min (value (block_level l) + escalation c) (value SEVERE) ∧
        consecutive_successes l' = 0 ∧
        consecutive_failures l' = consecutive_failures l + 1.
Proof.
  unfold report_failure.
  destruct (BlockLevel_of_range
              (Z.min (value (block_level l) + escalation c) (value SEVERE)))
    as (lvl & -> & Hlvl).
  - pose proof (value_range (block_level l)).
    pose proof (escalation_range c). simpl. lia.
  - simpl. eauto.
Qed.

Lemma report_failures_level codes l :
  ∃ l', report_failures codes l = Returns l' ∧
        value (block_level l) ≤ value (block_level l') ≤ value SEVERE.
Proof.
  revert l. induction codes as [|c codes IH]; intros l; simpl.
  - exists l. split; [done|]. pose proof (value_range (block_level l)). simpl. lia.
  - destruct (report_failure_level c l) as (l1 & -> & Hv & _). simpl.
    destruct (IH l1) as (l' & -> & Hle). exists l'. split; [done|].
    pose proof (escalation_range c).
    pose proof (value_range (block_level l)). simpl in *. lia.
Qed.

Lemma value_inj l1 l2 : value l1 = value l2 → l1 = l2.
Proof. destruct l1, l2; simpl; intros; congruence || lia. Qed.

(** C4: from [NONE], the first [report_failure(429)] gives [MODERATE] and
    the second gives [SEVERE]; whatever failures follow, every call
    returns and the level is still [SEVERE].  In general a failure moves
    the level to [min(current + escalation, SEVERE)], where the escalation
    is 2 for status 429 or 403 and 1 otherwise, so no sequence of failures
    from any state leaves the range up to [SEVERE]. *)
Theorem failures_reach_and_keep_severe l codes :
  block_level l = NONE →
  (∃ l1 l2 l3,
     report_failure (Some 429) l = Returns l1 ∧ block_level l1 = MODERATE ∧
     report_failure (Some 429) l1 = Returns l2 ∧ block_level l2 = SEVERE ∧
     report_failures codes l2 = Returns l3 ∧ block_level l3 = SEVERE) ∧
  (∀ c l0, ∃ l',
     report_failure c l0 = Returns l' ∧
     value (block_level l') =
       Z.min (value (block_level l0) + escalation c) (value SEVERE)) ∧
  (∀ cs l0, ∃ l',
     report_failures cs l0 = Returns l' ∧
     value (block_level l') ≤ value SEVERE) ∧
  escalation (Some 429) = 2 ∧ escalation (Some 403) = 2 ∧
  (∀ c, c ≠ Some 429 → c ≠ Some 403 → escalation c = 1).
Proof.
  intros Hnone. repeat split.
  - destruct (report_failure_level (Some 429) l) as (l1 & H1 & Hv1 & _).
    destruct (report_failure_level (Some 429) l1) as (l2 & H2 & Hv2 & _).
    destruct (report_failures_level codes l2) as (l3 & H3 & Hv3).
    rewrite Hnone in Hv1. simpl in Hv1.
    assert (E1 : block_level l1 = MODERATE) by (by apply value_inj).
    rewrite E1 in Hv2. simpl in Hv2.
    assert (E2 : block_level l2 = SEVERE) by (by apply value_inj).
    rewrite E2 in Hv3.
    assert (E3 : block_level l3 = SEVERE) by (apply value_inj; lia).
    exists l1, l2, l3. done.
  - intros c l0. destruct (report_failure_level c l0) as (l' & H & Hv & _). eauto.
  - intros cs l0. destruct (report_failures_level cs l0) as (l' & H & Hv).
    exists l'. split; [done | lia].
  - intros [z|] H429 H403; simpl; [|done].
    destruct (Z.eqb_spec z 429) as [->|_]; [done|].
    destruct (Z.eqb_spec z 403) as [->|_]; done.
Qed.

Lemma failures_reach_and_keep_severe_witness :
  ∃ l1 l2 l3,
    report_failure (Some 429) (init default_config None) = Returns l1 ∧
    block_level l1 = MODERATE ∧
    report_failure (Some 429) l1 = Returns l2 ∧ block_level l2 = SEVERE ∧
    report_failures [Some 500; None; Some 403] l2 = Returns l3 ∧
    block_level l3 = SEVERE.
Proof.
  apply (failures_reach_and_keep_severe (init default_config None)
           [Some 500; None; Some 403]).
  reflexivity.
Defined.

(** C9: [report_success] always returns; it resets
    [consecutive_failures]; when the incremented success count is at least
    5 and the level is above [NONE], the level goes down by exactly one and
    the success count restarts at 0; otherwise the level is unchanged and
    the success count is the incremented one.  So a call lowers the level
    by at most one step. *)
Theorem report_success_steps_down_once l :
  ∃ l',
    report_success l = Returns l' ∧
    consecutive_failures l' = 0 ∧
    (5 ≤ consecutive_successes l + 1 ∧ 0 < value (block_level l) →
       value (block_level l') = value (block_level l) - 1 ∧
       consecutive_successes l' = 0) ∧
    (consecutive_successes l + 1 < 5 ∨ block_level l = NONE →
       block_level l' = block_level l ∧
       consecutive_successes l' = consecutive_successes l + 1) ∧
    value (block_level l) - 1 ≤ value (block_level l') ≤ value (block_level l).
Proof.
  unfold report_success.
  destruct (Z.leb_spec 5 (consecutive_successes l + 1)) as [H5|H5];
    destruct (Z.ltb_spec 0 (value (block_level l))) as [Hl|Hl]; simpl.
  - destruct (BlockLevel_of_range (value (block_level l) - 1)) as (lvl & -> & Hv).
    { pose proof (value_range (block_level l)). lia. }
    simpl. eexists. split; [done|]. simpl.
    split; [done|]. split; [intros _; split; [lia | done]|].
    split; [|lia].
    intros [?|E]; [lia|]. rewrite E in Hl. simpl in Hl. lia.
  - eexists. split; [done|]. simpl.
    split; [done|]. split; [intros [_ ?]; lia|]. split; [done | lia].
  - eexists. split; [done|]. simpl.
    split; [done|]. split; [intros [? _]; lia|]. split; [done | lia].
  - eexists. split; [done|]. simpl.
    split; [done|]. split; [intros [? _]; lia|]. split; [done | lia].
Qed.


End BackoffTheorems.

(* ===================================================================== *)
(** * Theorems about TokenBucketRateLimiter                               *)
(* ===================================================================== *)

Module TokenBucketTheorems.
Import TokenBucket.

Local Open Scope Q_scope.

Lemma int_of_float_bounds (r : Q) :
  0 <= r → inject_Z (int_of_float r) <= r ∧ r < inject_Z (int_of_float r) + 1.
Proof.
  destruct r as [n d]. unfold int_of_float, Qle, Qlt, Qplus, inject_Z. simpl.
  intros Hn. rewrite Z.mul_1_r in Hn.
  rewrite Z.quot_div_nonneg by lia.
  pose proof (Z.mul_div_le n (Zpos d) ltac:(lia)).
  pose proof (Z.mul_succ_div_gt n (Zpos d) ltac:(lia)).
  lia.
Qed.

Lemma int_of_float_whole (r : Q) (z : Z) : r == inject_Z z → int_of_float r = z.
Proof.
  destruct r as [n d]. unfold int_of_float, Qeq, inject_Z. simpl.
  intros H. rewrite Z.mul_1_r in H. subst n.
  apply Z.quot_mul. lia.
Qed.

(** C8, as stated, fails for a rate that is not a whole number: the
    default capacity of a bucket of rate 2.5 is 2. *)
Lemma default_capacity_of_fractional_rate :
  let b := init (5 # 2) None 0 in
  capacity b = 2%Z ∧ tokens b = 2 ∧ ¬ (inject_Z (capacity b) == rate b).
Proof. vm_compute. repeat split. intros H. discriminate H. Qed.

(** C8 (amended): without a capacity argument, the capacity of a bucket of
    positive rate is [int(rate)], the rate truncated to an integer: it is
    the largest integer not above the rate, it equals the rate exactly
    when the rate is a whole number, and the initial token count equals
    the capacity. *)
Theorem default_capacity_is_truncated_rate (r now : Q) :
  0 < r →
  let b := init r None now in
  capacity b = int_of_float r ∧
  tokens b = inject_Z (capacity b) ∧
  inject_Z (capacity b) <= r ∧ r < inject_Z (capacity b) + 1 ∧
  (∀ z : Z, r == inject_Z z → capacity b = z).
Proof.
  intros Hr b. simpl.
  destruct (int_of_float_bounds r) as [Hlo Hhi]; [by apply Qlt_le_weak|].
  repeat split; try done. apply int_of_float_whole.
Qed.

Lemma default_capacity_is_truncated_rate_witness :
  capacity (init 10 None 0) = 10%Z ∧ tokens (init 10 None 0) = 10.
Proof.
  destruct (default_capacity_is_truncated_rate 10 0) as (_ & Ht & _ & _ & Hz).
  - reflexivity.
  - split; [apply Hz; reflexivity | exact Ht].
Defined.

Lemma refill_le_capacity now b : refill now b <= inject_Z (capacity b).
Proof. unfold refill. apply Q.le_min_l. Qed.




End TokenBucketTheorems.

(* ===================================================================== *)
(** * Theorems about ExperienceManager                                    *)
(* ===================================================================== *)

Module ExperienceFacts.
Import PyLib Experience.

Lemma well_formed_good p : well_formed p = true ↔ good p.
Proof. unfold well_formed, good. apply andb_true_iff. Qed.

Lemma good_dset k v p : good p → wf_entry v = true → good (dset k v p).
Proof.
  intros [Hm Hall] Hv. split; [|by apply forallb_dset].
  destruct (decide (k = "_meta")) as [->|Hne].
  - apply dmem_dset_eq.
  - by rewrite dmem_dset_ne.
Qed.

Lemma good_lookup k v p : good p → dget k p = Some v → wf_entry v = true.
Proof. intros [_ Hall]. by apply forallb_dget. Qed.

Lemma wf_entry_inv v :
  wf_entry v = true →
  ∃ e, v = PDict e ∧
       (dget "url_patterns" e = None ∨
        ∃ records, dget "url_patterns" e = Some (PDict records) ∧
                   forallb (λ kv, wf_record kv.2) records = true).
Proof.
  destruct v as [| | | | | |e]; try discriminate. simpl.
  intros H. exists e. split; [done|].
  destruct (dget "url_patterns" e) as [[| | | | | |records]|]; try discriminate; eauto.
Qed.

Lemma wf_record_inv v :
  wf_record v = true →
  ∃ r, v = PDict r ∧
       (dget "success_count" r = None ∨
        ∃ c, dget "success_count" r = Some c ∧ is_number c = true).
Proof.
  destruct v as [| | | | | |r]; try discriminate. simpl.
  intros H. exists r. split; [done|].
  destruct (dget "success_count" r) as [c|]; eauto.
Qed.

Lemma good_meta p :
  good p → ∃ m, dget "_meta" p = Some (PDict m) ∧ wf_entry (PDict m) = true.
Proof.
  intros Hg. pose proof Hg as [Hm _]. unfold dmem in Hm.
  destruct (dget "_meta" p) as [v|] eqn:E; [|discriminate].
  pose proof (good_lookup _ _ _ Hg E) as Hv.
  destruct (wf_entry_inv v Hv) as (m & -> & _). eauto.
Qed.

Lemma wf_entry_dset_other k v e :
  k ≠ "url_patterns" → wf_entry (PDict e) = true → wf_entry (PDict (dset k v e)) = true.
Proof. intros Hne. simpl. by rewrite dget_dset_ne. Qed.

(** Writing a key of [_meta] other than [url_patterns] changes no stored
    record. *)
Lemma stored_record_set_meta k v p p' d s :
  k ≠ "url_patterns" → set_meta k v p = Returns p' →
  stored_record d s p' = stored_record d s p.
Proof.
  intros Hne. unfold set_meta.
  destruct (dget "_meta" p) as [[| | | | | |m]|] eqn:E; try discriminate.
  intros [= <-]. unfold stored_record.
  destruct (decide (d = "_meta")) as [->|Hd].
  - by rewrite dget_dset_eq, E, dget_dset_ne.
  - by rewrite dget_dset_ne.
Qed.

Lemma set_meta_good k v p :
  good p → k ≠ "url_patterns" → ∃ p', set_meta k v p = Returns p' ∧ good p'.
Proof.
  intros Hg Hne. destruct (good_meta p Hg) as (m & E & Hm).
  unfold set_meta. rewrite E. eexists. split; [done|].
  apply good_dset; [done|]. by apply wf_entry_dset_other.
Qed.

Lemma py_add_number a b :
  is_number a = true → is_number b = true →
  ∃ c, py_add a b = Returns c ∧ is_number c = true.
Proof.
  destruct a; try discriminate; destruct b; try discriminate; intros _ _;
    simpl; eauto.
Qed.

Lemma py_len_dict d : py_len (PDict d) = Returns (Z.of_nat (length d)).
Proof. done. Qed.

Lemma sum_pattern_counts_good acc p :
  forallb (λ kv, wf_entry kv.2) p = true →
  ∃ n, sum_pattern_counts acc p = Returns n.
Proof.
  revert acc. induction p as [|[k v] p IH]; intros acc Hall; simpl in *; [eauto|].
  apply andb_prop in Hall as [Hv Hall].
  destruct (decide (k = "_meta")); [by apply IH|].
  destruct (wf_entry_inv v Hv) as (e & -> & [E|(records & E & _)]);
    simpl; unfold dget_or; rewrite E; simpl; by apply IH.
Qed.

Lemma sum_success_counts_good acc records :
  is_number acc = true →
  forallb (λ kv, wf_record kv.2) records = true →
  ∃ v, sum_success_counts acc records = Returns v ∧ is_number v = true.
Proof.
  revert acc. induction records as [|[k r] records IH]; intros acc Hacc Hall;
    simpl in *; [eauto|].
  apply andb_prop in Hall as [Hr Hall].
  destruct (wf_record_inv r Hr) as (rd & -> & [E|(c & E & Hc)]); simpl;
    unfold dget_or; rewrite E; simpl.
  - destruct (py_add_number acc (PInt 0) Hacc eq_refl) as (acc' & -> & Hacc').
    simpl. by apply IH.
  - destruct (py_add_number acc c Hacc Hc) as (acc' & -> & Hacc').
    simpl. by apply IH.
Qed.

Lemma sum_successes_good acc p :
  is_number acc = true →
  forallb (λ kv, wf_entry kv.2) p = true →
  ∃ v, sum_successes acc p = Returns v ∧ is_number v = true.
Proof.
  revert acc. induction p as [|[k v] p IH]; intros acc Hacc Hall;
    simpl in *; [eauto|].
  apply andb_prop in Hall as [Hv Hall].
  destruct (decide (k = "_meta")); [by apply IH|].
  destruct (wf_entry_inv v Hv) as (e & -> & [E|(records & E & Hrec)]);
    simpl; unfold dget_or; rewrite E; simpl.
  - by apply IH.
  - destruct (sum_success_counts_good acc records Hacc Hrec) as (acc' & -> & Hacc').
    simpl. by apply IH.
Qed.

(** The merged record exists for a well-formed previous record, is itself
    well formed, and its status is "active". *)
Lemma merge_good t1 t2 data existing :
  wf_record (PDict existing) = true →
  ∃ merged, merge t1 t2 data existing = Returns merged ∧
            wf_record (PDict merged) = true ∧
            dget "status" merged = Some (PStr "active").
Proof.
  intros Hwf. unfold merge.
  destruct (wf_record_inv _ Hwf) as (r & [= <-] & [E|(c & E & Hc)]);
    unfold dget_or at 1; rewrite E; simpl.
  - eexists. split; [done|]. done.
  - destruct (py_add_number c (PInt 1) Hc eq_refl) as (c' & -> & Hc'). simpl.
    eexists. split; [done|]. split; [|done]. simpl. exact Hc'.
Qed.

End ExperienceFacts.

Module ExperienceTheorems.
Import PyLib Experience ExperienceFacts.



(** C2, as stated, fails on its last part: the shape of
    [/articles/42/comments] is [/articles/*/comments], and the stored shape
    [/articles/*] matches it under [fnmatch], whose [*] also matches [/];
    so the lookup returns the record of [/articles/*]. *)
Lemma find_pattern_matches_deeper_path :
  stored_record "example.com" "/articles/*" (patterns articles_store)
    = Some articles_record ∧
  _url_to_pattern "https://example.com/articles/42/comments" = "/articles/*/comments" ∧
  find_pattern "https://example.com/articles/42/comments" articles_store
    = Returns articles_record.
Proof. vm_compute. done. Qed.

Lemma first_wildcard_match_app name pre k v post :
  Forall (λ kv, fnmatch name kv.1 = false) pre →
  first_wildcard_match name (pre ++ (k, v) :: post) =
    if fnmatch name k then v else first_wildcard_match name post.
Proof.
  induction 1 as [|[k0 v0] pre H0 _ IH]; simpl; [done|].
  simpl in H0. by rewrite H0.
Qed.

Lemma shape_of_article n :
  n = "/articles/42" ∨ n = "/articles/7" →
  sub_digits "=" false (sub_digits "/" false n) = "/articles/*".
Proof. by intros [-> | ->]. Qed.

(** C2 (amended): if the store holds record [r] under shape [/articles/*]
    for an origin, [find_pattern] on a URL of that origin with path
    [/articles/42] or [/articles/7] returns [r].  A URL with path
    [/articles/42/comments] has shape [/articles/*/comments], which
    [/articles/*] matches as a wildcard; so, unless the store has an exact
    entry for [/articles/*/comments] or an earlier-stored shape that
    matches it, [find_pattern] returns [r] for that URL too. *)
Theorem find_pattern_articles url em entry records r :
  dget (netloc (urlparse url)) (patterns em) = Some (PDict entry) →
  dget "url_patterns" entry = Some (PDict records) →
  dget "/articles/*" records = Some r →
  (path (urlparse url) = "/articles/42" ∨ path (urlparse url) = "/articles/7" →
   find_pattern url em = Returns r) ∧
  (path (urlparse url) = "/articles/42/comments" →
   _url_to_pattern url = "/articles/*/comments" ∧
   fnmatch "/articles/*/comments" "/articles/*" = true ∧
   (∀ pre post,
      records = pre ++ ("/articles/*", r) :: post →
      dget "/articles/*/comments" records = None →
      Forall (λ kv, fnmatch "/articles/*/comments" kv.1 = false) pre →
      find_pattern url em = Returns r)).
Proof.
  intros Hentry Hrecords Hr. unfold find_pattern. rewrite Hentry. simpl.
  unfold dget_or. rewrite Hrecords. simpl. split.
  - intros Hpath. unfold _url_to_pattern.
    rewrite (shape_of_article _ Hpath). by rewrite Hr.
  - intros Hpath. unfold _url_to_pattern. rewrite Hpath.
    change (sub_digits "=" false (sub_digits "/" false "/articles/42/comments"))
      with "/articles/*/comments".
    split_and!; [done | done |].
    intros pre post Hsplit Hexact Hpre. rewrite Hexact, Hsplit.
    by rewrite first_wildcard_match_app.
Qed.

Lemma find_pattern_articles_witness :
  find_pattern "https://example.com/articles/42" articles_store = Returns articles_record ∧
  find_pattern "https://example.com/articles/7" articles_store = Returns articles_record ∧
  find_pattern "https://example.com/articles/42/comments" articles_store
    = Returns articles_record.
Proof.
  pose proof (λ url,
    find_pattern_articles url articles_store
      [("url_patterns", PDict [("/articles/*", articles_record)])]
      [("/articles/*", articles_record)] articles_record) as H.
  split_and!.
  - destruct (H "https://example.com/articles/42") as [H1 _];
      [reflexivity | reflexivity | reflexivity |].
    apply H1. by left.
  - destruct (H "https://example.com/articles/7") as [H1 _];
      [reflexivity | reflexivity | reflexivity |].
    apply H1. by right.
  - destruct (H "https://example.com/articles/42/comments") as [_ H2];
      [reflexivity | reflexivity | reflexivity |].
    destruct H2 as (_ & _ & H2); [reflexivity|].
    apply (H2 [] []); [reflexivity | reflexivity | constructor].
Defined.

End ExperienceTheorems.

(* ===================================================================== *)
(** * Theorems about _scrape_single                                       *)
(* ===================================================================== *)

Module ScraperTheorems.
Import PyLib Scraper.

(** A first attempt that fails and a retry that succeeds: the semaphores
    are taken and given back once per attempt, and the second attempt
    starts after the releases of the first and the back-off sleep. *)
Lemma scrape_single_retry_trace :
  let '(r, s') := _scrape_single flaky "https://example.com/a" 0 new_scraper in
  r = Val (mkScrapeResult "https://example.com/a" true "Title" "<p>hi</p>" "hi"
             None None 1) ∧
  retried s' = 1 ∧
  global_semaphore s' = 5 ∧
  semaphores s' !! "example.com" = Some 2 ∧
  semaphore_events (log s') =
    [Acquired (DomainSem "example.com"); Acquired GlobalSem;
     Released (DomainSem "example.com"); Released GlobalSem;
     Acquired (DomainSem "example.com"); Acquired GlobalSem;
     Released (DomainSem "example.com"); Released GlobalSem].
Proof. vm_compute. done. Qed.


Lemma domain_acquire_free u s :
  let domain := netloc (urlparse u) in
  let v := default (max_per_domain (config s)) (semaphores s !! domain) in
  0 < v →
  domain_acquire u s =
    (Val tt, with_log (log s ++ [Acquired (DomainSem domain)])
               (with_semaphores (<[domain := v - 1]> (semaphores s)) s)).
Proof.
  intros domain v Hv. subst v. unfold domain_acquire, emit. fold domain.
  destruct (semaphores s !! domain) as [v|]; simpl in *.
  - destruct (Z.ltb_spec 0 v); [done | lia].
  - destruct (Z.ltb_spec (max_per_domain (config s)) 0); [lia|].
    destruct (Z.ltb_spec 0 (max_per_domain (config s))); [done | lia].
Qed.

Lemma global_acquire_free s :
  0 < global_semaphore s →
  global_acquire s =
    (Val tt, with_log (log s ++ [Acquired GlobalSem])
               (with_global_semaphore (global_semaphore s - 1) s)).
Proof.
  intros Hv. unfold global_acquire, emit.
  destruct (Z.ltb_spec 0 (global_semaphore s)); [done | lia].
Qed.

(** The fetch itself leaves with [attempt_result], never suspended, and
    touches no semaphore. *)
Lemma fetch_effect env u rc s :
  ∃ s', fetch env u rc s = (attempt_result env u rc, s') ∧
        attempt_result env u rc ≠ Suspended ∧
        log s' = log s ++ (if CRAWL4AI_AVAILABLE env then [Crawled u] else []) ∧
        semaphores s' = semaphores s ∧
        global_semaphore s' = global_semaphore s.
Proof.
  unfold fetch, attempt_result.
  destruct (CRAWL4AI_AVAILABLE env); simpl.
  - unfold bind, emit, progress_mark_completed, ret, raise. simpl.
    destruct (crawl env u rc) as [t c m|[[|c0 r0]|]|e]; simpl;
      try destruct (progress s); simpl; eexists; (split; [reflexivity|]);
      simpl; done.
  - unfold ret. eexists. split; [reflexivity|]. simpl.
    by rewrite app_nil_r.
Qed.

Lemma releases_effect u s v :
  let domain := netloc (urlparse u) in
  semaphores s !! domain = Some v →
  (domain_release u ;>> global_release) s =
    (Val tt,
     with_log (log s ++ [Released (DomainSem domain); Released GlobalSem])
       (with_global_semaphore (global_semaphore s + 1)
          (with_semaphores (<[domain := v + 1]> (semaphores s)) s))).
Proof.
  intros domain Hv. unfold bind, domain_release, global_release, emit.
  fold domain. rewrite Hv. simpl. by rewrite <- app_assoc.
Qed.



End ScraperTheorems.

(* ===================================================================== *)
(** * Further properties of ProgressManager                               *)
(* ===================================================================== *)

Module ProgressExtras.
Import Progress ProgressFacts.

(** The auto-save either leaves the state alone or stamps [updated_at]. *)
Lemma auto_save_state now pm :
  _completed_set (_maybe_auto_save now pm) = _completed_set pm ∧
  (state (_maybe_auto_save now pm) = state pm ∨
   state (_maybe_auto_save now pm) = with_updated_at now (state pm)).
Proof.
  unfold _maybe_auto_save. destruct (auto_save pm); simpl; [|by split; [|left]].
  destruct (Z.leb _ _); simpl; split; try done; [by right | by left].
Qed.

(** Reading a field other than [updated_at] through an auto-save. *)
Ltac through_auto_save now pm :=
  let H := fresh "H" in
  destruct (auto_save_state now pm) as [_ [H|H]]; rewrite H; clear H.

(** X1: [mark_failed] is idempotent on the failed list and its counter,
    but not on the retry counter: a second call for the same URL changes
    neither [failed_url_list] nor [failed_urls], raises [retry_count] once
    more and replaces [last_error]. *)
Theorem mark_failed_twice n1 n2 u e1 e2 pm :
  let pm1 := mark_failed n1 u e1 pm in
  let pm2 := mark_failed n2 u e2 pm1 in
  u ∈ failed_url_list (state pm1) ∧
  failed_urls (state pm1) =
    failed_urls (state pm) + (if decide (u ∈ failed_url_list (state pm)) then 0 else 1) ∧
  failed_url_list (state pm2) = failed_url_list (state pm1) ∧
  failed_urls (state pm2) = failed_urls (state pm1) ∧
  retry_count (state pm2) = retry_count (state pm) + 2 ∧
  last_error (state pm2) = Some e2 ∧
  (NoDup (failed_url_list (state pm)) → NoDup (failed_url_list (state pm2))).
Proof.
  intros pm1 pm2.
  assert (Hl1 : failed_url_list (state pm1) =
                if decide (u ∈ failed_url_list (state pm)) then failed_url_list (state pm)
                else failed_url_list (state pm) ++ [u])
    by apply mark_failed_effect.
  assert (Hin : u ∈ failed_url_list (state pm1)).
  { rewrite Hl1. destruct (decide _); [done|]. apply elem_of_app. right. left. }
  assert (Hl2 : failed_url_list (state pm2) = failed_url_list (state pm1)).
  { destruct (mark_failed_effect n2 u e2 pm1) as (H & _). fold pm2 in H.
    by rewrite H, decide_True. }
  assert (Hc1 : failed_urls (state pm1) =
                failed_urls (state pm) +
                (if decide (u ∈ failed_url_list (state pm)) then 0 else 1)).
  { subst pm1. unfold mark_failed.
    match goal with |- context [_maybe_auto_save n1 ?x] => through_auto_save n1 x end;
      simpl; destruct (decide _); simpl; lia. }
  assert (Hc2 : failed_urls (state pm2) = failed_urls (state pm1)).
  { subst pm2. unfold mark_failed at 1.
    match goal with |- context [_maybe_auto_save n2 ?x] => through_auto_save n2 x end;
      simpl; by rewrite decide_True. }
  assert (Hr : ∀ n e p, retry_count (state (mark_failed n u e p)) = retry_count (state p) + 1
                        ∧ last_error (state (mark_failed n u e p)) = Some e).
  { intros n e p. unfold mark_failed.
    match goal with |- context [_maybe_auto_save n ?x] => through_auto_save n x end;
      simpl; destruct (decide (u ∈ failed_url_list (state p))); simpl; done. }
  split_and!; try done.
  - subst pm2. rewrite (proj1 (Hr n2 e2 pm1)). subst pm1.
    rewrite (proj1 (Hr n1 e1 pm)). lia.
  - apply Hr.
  - intros Hnd. rewrite Hl2, Hl1. destruct (decide _) as [|Hout]; [done|].
    apply NoDup_app. split_and!; [done | | apply NoDup_singleton].
    intros x Hx Hxu. by apply list_elem_of_singleton in Hxu as ->.
Qed.

(** Every method but [mark_completed] and [reset] leaves the completed
    list and its lookup set as they are. *)
Lemma invoke_completed_unchanged m pm :
  (∀ t now u d, m ≠ Completed t now u d) →
  (∀ tid c now, m ≠ Reset tid c now) →
  completed_url_list (state (invoke m pm)) = completed_url_list (state pm) ∧
  _completed_set (invoke m pm) = _completed_set pm.
Proof.
  intros Hc Hr. destruct m; simpl; try done;
    try (by exfalso; eapply Hc); try (by exfalso; eapply Hr).
  - unfold set_urls.
    match goal with |- context [_maybe_auto_save now ?x] =>
      destruct (auto_save_state now x) as [-> [->| ->]] end; done.
  - unfold add_urls.
    match goal with |- context [_maybe_auto_save now ?x] =>
      destruct (auto_save_state now x) as [-> [->| ->]] end; done.
  - destruct (mark_failed_effect now url error pm) as (_ & -> & _ & -> & _). done.
  - unfold set_current_page.
    match goal with |- context [_maybe_auto_save now ?x] =>
      destruct (auto_save_state now x) as [-> [->| ->]] end; done.
  - unfold set_next_url.
    match goal with |- context [_maybe_auto_save now ?x] =>
      destruct (auto_save_state now x) as [-> [->| ->]] end; done.
Qed.

Lemma invoke_synced m pm : set_synced pm → set_synced (invoke m pm).
Proof.
  intros Hs. destruct m;
    try (unfold set_synced;
         edestruct (invoke_completed_unchanged) as [-> ->]; [| |exact Hs]; done).
  - by apply mark_completed_synced.
  - reflexivity.
Qed.

Lemma invoke_nodup m pm :
  set_synced pm →
  NoDup (completed_url_list (state pm)) →
  NoDup (completed_url_list (state (invoke m pm))).
Proof.
  intros Hs Hnd. destruct m;
    try (edestruct (invoke_completed_unchanged) as [-> _]; [| |exact Hnd]; done).
  - by apply mark_completed_nodup.
  - simpl. constructor.
Qed.

Lemma invoke_all_invariant ms pm :
  set_synced pm →
  set_synced (invoke_all ms pm) ∧
  (NoDup (completed_url_list (state pm)) →
   NoDup (completed_url_list (state (invoke_all ms pm)))).
Proof.
  revert pm. induction ms as [|m ms IH]; intros pm Hs; [done|].
  simpl. destruct (IH (invoke m pm) (invoke_synced m pm Hs)) as [H1 H2].
  split; [done|]. intros Hnd. by apply H2, invoke_nodup.
Qed.

(** X2: whatever methods are called on a manager after its constructor,
    in any order, [is_completed(url)] answers exactly whether [url] is in
    [completed_url_list], and the list has no duplicate entry if the
    loaded one had none. *)
Theorem completed_set_mirrors_list tid start autosave interval on_disk now ms :
  let pm := invoke_all ms (init tid start autosave interval on_disk now) in
  (∀ u, is_completed u pm = true ↔ u ∈ completed_url_list (state pm)) ∧
  (match on_disk with
   | Some st => NoDup (completed_url_list st)
   | None => True
   end → NoDup (completed_url_list (state pm))).
Proof.
  intros pm.
  destruct (invoke_all_invariant ms (init tid start autosave interval on_disk now))
    as [Hs Hnd]; [apply init_synced|].
  fold pm in Hs, Hnd. split.
  - intros u. unfold is_completed. rewrite bool_decide_eq_true, Hs.
    apply elem_of_list_to_set.
  - intros Hdisk. apply Hnd. destruct on_disk; simpl; [done | constructor].
Qed.

Lemma run_worklist cs pm :
  urls_to_scrape (state (run cs pm)) = urls_to_scrape (state pm).
Proof.
  revert pm. induction cs as [|c cs IH]; intros pm; [done|].
  simpl. rewrite IH. destruct c; simpl.
  - by destruct (mark_completed_effect scraped_at now url data pm) as (_ & _ & _ & _ & -> & _).
  - by destruct (mark_failed_effect now url error pm) as (_ & _ & _ & _ & -> & _).
Qed.

Lemma run_completed_iff cs pm u :
  set_synced pm →
  u ∈ completed_url_list (state (run cs pm)) ↔
  u ∈ completed_url_list (state pm) ∨ u ∈ urls_marked_completed cs.
Proof.
  revert pm. induction cs as [|c cs IH]; intros pm Hs.
  - simpl. split; [by left | intros [?|H]; [done | by apply elem_of_nil in H]].
  - simpl. destruct c as [t now v data|now v err]; simpl.
    + rewrite IH by (by apply mark_completed_synced).
      destruct (mark_completed_effect t now v data pm) as (-> & _).
      assert (Hmem : v ∈ _completed_set pm ↔ v ∈ completed_url_list (state pm))
        by (rewrite Hs; apply elem_of_list_to_set).
      destruct (decide (v ∈ _completed_set pm)) as [Hin|Hout].
      * rewrite elem_of_cons. apply Hmem in Hin. naive_solver.
      * rewrite elem_of_app, list_elem_of_singleton, elem_of_cons. naive_solver.
    + rewrite IH by (by apply mark_failed_synced).
      by destruct (mark_failed_effect now v err pm) as (_ & -> & _).
Qed.

Lemma run_failed_iff cs pm u :
  u ∈ failed_url_list (state (run cs pm)) ↔
  u ∈ failed_url_list (state pm) ∨ u ∈ urls_marked_failed cs.
Proof.
  revert pm. induction cs as [|c cs IH]; intros pm.
  - simpl. split; [by left | intros [?|H]; [done | by apply elem_of_nil in H]].
  - simpl. destruct c as [t now v data|now v err]; simpl.
    + rewrite IH.
      by destruct (mark_completed_effect t now v data pm) as (_ & _ & _ & -> & _).
    + rewrite IH.
      destruct (mark_failed_effect now v err pm) as (-> & _).
      destruct (decide (v ∈ failed_url_list (state pm))) as [Hin|Hout].
      * rewrite elem_of_cons. naive_solver.
      * rewrite elem_of_app, list_elem_of_singleton, elem_of_cons. naive_solver.
Qed.

(** X3: along any sequence of [mark_completed] and [mark_failed] calls,
    [get_remaining_urls] only loses URLs: afterwards it returns what it
    returned before, in the same order, minus exactly the URLs that were
    marked completed or failed in between. *)
Theorem remaining_after_marking cs pm :
  set_synced pm →
  get_remaining_urls (run cs pm) =
    filter (λ u, (u ∉ urls_marked_completed cs) ∧ (u ∉ urls_marked_failed cs))
           (get_remaining_urls pm).
Proof.
  intros Hs. unfold get_remaining_urls.
  rewrite run_worklist, list_filter_filter. apply list_filter_iff. intros u.
  pose proof (run_synced cs pm Hs) as Hs'.
  assert (H1 : u ∈ _completed_set (run cs pm) ↔
               u ∈ _completed_set pm ∨ u ∈ urls_marked_completed cs).
  { rewrite Hs', elem_of_list_to_set, run_completed_iff by done.
    by rewrite Hs, elem_of_list_to_set. }
  rewrite H1, run_failed_iff. tauto.
Qed.

Lemma remaining_after_marking_witness :
  get_remaining_urls
    (run [MarkCompleted "t" "t" "C" None; MarkFailed "t" "D" "timeout"] resumed) = [].
Proof.
  rewrite (remaining_after_marking
             [MarkCompleted "t" "t" "C" None; MarkFailed "t" "D" "timeout"] resumed);
    [|reflexivity].
  vm_compute. reflexivity.
Defined.

Lemma extend_worklist_spec urls w :
  ∃ added,
    extend_worklist urls w = w ++ added ∧
    NoDup added ∧
    (∀ x, x ∈ added ↔ x ∈ urls ∧ x ∉ w).
Proof.
  revert w. induction urls as [|u urls IH]; intros w; simpl.
  - exists []. rewrite app_nil_r. split_and!; [done | constructor |].
    intros x. split; [by intros ?%elem_of_nil | by intros [?%elem_of_nil _]].
  - destruct (decide (u ∈ w)) as [Hin|Hout].
    + destruct (IH w) as (added & -> & Hnd & Hiff). exists added.
      split_and!; [done | done |]. intros x. rewrite Hiff, elem_of_cons.
      split; [naive_solver|]. intros [[->|?] ?]; done.
    + destruct (IH (w ++ [u])) as (added & -> & Hnd & Hiff). exists (u :: added).
      split_and!.
      * by rewrite <- app_assoc.
      * constructor; [|done]. intros Hu. apply Hiff in Hu as [_ Hu].
        apply Hu, elem_of_app. right. left.
      * intros x. rewrite !elem_of_cons, Hiff, elem_of_app, list_elem_of_singleton.
        destruct (decide (x = u)) as [->|Hne]; naive_solver.
Qed.

Lemma extend_worklist_noop urls w :
  (∀ u, u ∈ urls → u ∈ w) → extend_worklist urls w = w.
Proof.
  intros Hall. destruct (extend_worklist_spec urls w) as (added & -> & _ & Hiff).
  destruct added as [|x added]; [by rewrite app_nil_r|].
  exfalso. destruct (proj1 (Hiff x)) as [Hx Hout]; [left|]. by apply Hout, Hall.
Qed.

Lemma add_urls_worklist now urls pm :
  urls_to_scrape (state (add_urls now urls pm)) =
    extend_worklist urls (urls_to_scrape (state pm)) ∧
  total_urls (state (add_urls now urls pm)) =
    Z.of_nat (length (extend_worklist urls (urls_to_scrape (state pm)))).
Proof.
  unfold add_urls.
  match goal with |- context [_maybe_auto_save now ?x] =>
    destruct (auto_save_state now x) as [_ [->| ->]] end; done.
Qed.

(** X4: [add_urls] appends to the worklist, in one copy each, exactly the
    given URLs that the worklist does not hold yet; the URLs already there
    keep their places, [total_urls] is the new length, and adding the same
    URLs again changes nothing. *)
Theorem add_urls_appends_new_once now now' urls pm :
  let pm' := add_urls now urls pm in
  ∃ added,
    urls_to_scrape (state pm') = urls_to_scrape (state pm) ++ added ∧
    NoDup added ∧
    (∀ u, u ∈ added ↔ u ∈ urls ∧ u ∉ urls_to_scrape (state pm)) ∧
    total_urls (state pm') = Z.of_nat (length (urls_to_scrape (state pm'))) ∧
    urls_to_scrape (state (add_urls now' urls pm')) = urls_to_scrape (state pm').
Proof.
  intros pm'. destruct (add_urls_worklist now urls pm) as [Hw Ht]. fold pm' in Hw, Ht.
  destruct (extend_worklist_spec urls (urls_to_scrape (state pm)))
    as (added & Hext & Hnd & Hiff).
  exists added. split_and!; try done.
  - by rewrite Hw.
  - by rewrite Ht, Hw.
  - rewrite (proj1 (add_urls_worklist now' urls pm')).
    apply extend_worklist_noop. intros u Hu. rewrite Hw, Hext.
    destruct (decide (u ∈ urls_to_scrape (state pm))) as [Hin|Hout];
      apply elem_of_app; [by left | right; by apply Hiff].
Qed.

(** An auto-saving method is some update of the state followed by
    [_maybe_auto_save]. *)
Lemma auto_saving_shape m pm :
  auto_saving m = true →
  ∃ now pm0,
    invoke m pm = _maybe_auto_save now pm0 ∧
    auto_save pm0 = auto_save pm ∧
    save_interval pm0 = save_interval pm ∧
    _completions_since_save pm0 = _completions_since_save pm ∧
    progress_file pm0 = progress_file pm.
Proof.
  destruct m; try discriminate; intros _; simpl.
  - eexists _, _. split; [reflexivity|]. done.
  - eexists _, _. split; [reflexivity|]. done.
  - unfold mark_completed. eexists _, _. split; [reflexivity|].
    destruct data as [d|]; [destruct (truthy_dict (Some d))|];
      destruct (decide (url ∈ _completed_set pm)); done.
  - eexists _, _. split; [reflexivity|]. done.
  - eexists _, _. split; [reflexivity|]. done.
  - eexists _, _. split; [reflexivity|]. done.
Qed.

Lemma maybe_auto_save_off now pm :
  auto_save pm = false → _maybe_auto_save now pm = pm.
Proof. unfold _maybe_auto_save. by intros ->. Qed.

Lemma maybe_auto_save_on now pm :
  auto_save pm = true →
  let pm' := _maybe_auto_save now pm in
  auto_save pm' = true ∧ save_interval pm' = save_interval pm ∧
  (_completions_since_save pm + 1 < save_interval pm →
     progress_file pm' = progress_file pm ∧
     _completions_since_save pm' = _completions_since_save pm + 1) ∧
  (save_interval pm ≤ _completions_since_save pm + 1 →
     progress_file pm' = Some (state pm') ∧ _completions_since_save pm' = 0).
Proof.
  unfold _maybe_auto_save. intros Hon. rewrite Hon. simpl.
  destruct (Z.leb_spec (save_interval pm) (_completions_since_save pm + 1));
    simpl; split_and!; try done; intros; exfalso; lia.
Qed.

(** X5: with auto-save off, the methods that save through
    [_maybe_auto_save] (set_urls, add_urls, mark_completed, mark_failed,
    set_current_page, set_next_url) never write the progress file. *)
Theorem auto_save_off_never_writes ms pm :
  auto_save pm = false →
  Forall (λ m, auto_saving m = true) ms →
  progress_file (invoke_all ms pm) = progress_file pm ∧
  _completions_since_save (invoke_all ms pm) = _completions_since_save pm.
Proof.
  intros Hoff Hall. revert pm Hoff.
  induction Hall as [|m ms Hm _ IH]; intros pm Hoff; [done|].
  simpl. destruct (auto_saving_shape m pm Hm) as (now & pm0 & E & Ha & _ & Hc & Hf).
  rewrite E, maybe_auto_save_off by congruence.
  destruct (IH pm0 ltac:(congruence)) as [-> ->]. done.
Qed.

Lemma auto_save_off_never_writes_witness :
  progress_file
    (invoke_all [Completed "t" "t" "A" (Some page); Failed "t" "B" "timeout"]
       (init "task" "" false 1 None "t0")) = None.
Proof.
  apply (auto_save_off_never_writes
           [Completed "t" "t" "A" (Some page); Failed "t" "B" "timeout"]
           (init "task" "" false 1 None "t0")).
  - reflexivity.
  - repeat constructor.
Defined.

Lemma auto_save_batch ms pm :
  auto_save pm = true →
  Forall (λ m, auto_saving m = true) ms →
  0 ≤ _completions_since_save pm →
  let pm' := invoke_all ms pm in
  (_completions_since_save pm + Z.of_nat (length ms) < save_interval pm →
     progress_file pm' = progress_file pm ∧
     _completions_since_save pm' = _completions_since_save pm + Z.of_nat (length ms) ∧
     auto_save pm' = true ∧ save_interval pm' = save_interval pm) ∧
  (ms ≠ [] →
   _completions_since_save pm + Z.of_nat (length ms) = save_interval pm →
     progress_file pm' = Some (state pm') ∧ _completions_since_save pm' = 0).
Proof.
  intros Hon Hall. revert pm Hon.
  induction Hall as [|m ms Hm Hall IH]; intros pm Hon Hc0.
  - simpl. split; [intros _; split_and!; [done | lia | done | done] | done].
  - cbn [invoke_all foldl length]. fold (invoke_all ms (invoke m pm)).
    destruct (auto_saving_shape m pm Hm) as (now & pm0 & E & Ha & Hi & Hc & Hf).
    destruct (maybe_auto_save_on now pm0 ltac:(congruence)) as (Hon' & Hi' & Hlt & Hge).
    rewrite <- E in Hon', Hi', Hlt, Hge. rewrite Hi, Hc, ?Hf in *.
    rewrite Nat2Z.inj_succ.
    split.
    + intros Hk. destruct Hlt as [Hf1 Hc1]; [lia|].
      destruct (IH (invoke m pm) Hon' ltac:(lia)) as [IH1 _].
      destruct IH1 as (-> & -> & -> & ->); [lia|].
      split_and!; [congruence | lia | done | congruence].
    + intros _ Hk. destruct ms as [|m' ms'].
      * simpl in *. apply Hge. lia.
      * destruct Hlt as [Hf1 Hc1]; [simpl in Hk; lia|].
        destruct (IH (invoke m pm) Hon' ltac:(lia)) as [_ IH2].
        apply IH2; [done|]. lia.
Qed.

(** X6: with auto-save on, a save interval [N >= 1] and the counter at 0,
    a run of auto-saving calls writes the file at its [N]-th call and not
    before: after fewer than [N] calls the file is what it was, after
    exactly [N] it holds the current state and the counter is back at 0. *)
Theorem auto_save_writes_every_interval ms pm :
  auto_save pm = true →
  _completions_since_save pm = 0 →
  Forall (λ m, auto_saving m = true) ms →
  let pm' := invoke_all ms pm in
  (Z.of_nat (length ms) < save_interval pm →
     progress_file pm' = progress_file pm) ∧
  (ms ≠ [] → Z.of_nat (length ms) = save_interval pm →
     progress_file pm' = Some (state pm') ∧ _completions_since_save pm' = 0).
Proof.
  intros Hon Hc Hall pm'.
  destruct (auto_save_batch ms pm Hon Hall ltac:(lia)) as [H1 H2].
  rewrite Hc in H1, H2. split.
  - intros Hk. by apply H1.
  - intros Hne Hk. by apply H2.
Qed.

Lemma auto_save_writes_every_interval_witness :
  let pm0 := init "task" "" true 2 None "t0" in
  progress_file (invoke_all [Completed "t1" "t1" "A" None] pm0) = None ∧
  progress_file (invoke_all [Completed "t1" "t1" "A" None; Failed "t2" "B" "e"] pm0)
    = Some (state (invoke_all [Completed "t1" "t1" "A" None; Failed "t2" "B" "e"] pm0)).
Proof.
  intros pm0. split.
  - apply (auto_save_writes_every_interval [Completed "t1" "t1" "A" None] pm0);
      [reflexivity | reflexivity | repeat constructor | reflexivity].
  - apply (auto_save_writes_every_interval
             [Completed "t1" "t1" "A" None; Failed "t2" "B" "e"] pm0);
      [reflexivity | reflexivity | repeat constructor | discriminate | reflexivity].
Defined.

(** X7: [pause], [resume], [finish] and [fail] write the file at once,
    whatever the auto-save settings: afterwards the file holds the state
    in memory, whose status is the one the method sets; the URL lists, the
    results, the lookup set and the save counter are untouched. *)
Theorem lifecycle_persists_immediately m st pm :
  lifecycle_status m = Some st →
  let pm' := invoke m pm in
  progress_file pm' = Some (state pm') ∧
  status (state pm') = st ∧
  urls_to_scrape (state pm') = urls_to_scrape (state pm) ∧
  completed_url_list (state pm') = completed_url_list (state pm) ∧
  failed_url_list (state pm') = failed_url_list (state pm) ∧
  scraped_data (state pm') = scraped_data (state pm) ∧
  get_remaining_urls pm' = get_remaining_urls pm ∧
  _completed_set pm' = _completed_set pm ∧
  _completions_since_save pm' = _completions_since_save pm.
Proof.
  destruct m; try discriminate; intros [= <-]; simpl; done.
Qed.

Lemma lifecycle_persists_immediately_witness :
  let pm := invoke (Resume "s2" "t2") (invoke (Pause "s1" "t1") resumed) in
  progress_file pm = Some (state pm) ∧
  status (state pm) = "in_progress" ∧
  get_remaining_urls pm = ["C"; "D"].
Proof.
  intros pm.
  destruct (lifecycle_persists_immediately (Resume "s2" "t2") "in_progress"
              (invoke (Pause "s1" "t1") resumed))
    as (Hf & Hs & _ & _ & _ & _ & Hr & _); [reflexivity|].
  split_and!; [exact Hf | exact Hs | subst pm; rewrite Hr; reflexivity].
Defined.

(** X8: [reset] forgets everything but the start URL and the config, and
    saves: nothing remains to scrape, no URL counts as completed or
    failed, [has_progress] is false; and a URL completed before the reset
    is recorded again, as the only entry, when it is completed after it. *)
Theorem reset_starts_fresh tid created now t n u data pm :
  let pm' := reset tid created now pm in
  let pm'' := mark_completed t n u data pm' in
  progress_file pm' = Some (state pm') ∧
  start_url (state pm') = start_url (state pm) ∧
  config (state pm') = config (state pm) ∧
  get_remaining_urls pm' = [] ∧
  has_progress pm' = false ∧
  (∀ v, is_completed v pm' = false ∧ is_failed v pm' = false) ∧
  completed_url_list (state pm'') = [u] ∧
  completed_urls (state pm'') = 1 ∧
  is_completed u pm'' = true.
Proof.
  intros pm' pm''.
  destruct (mark_completed_effect t n u data pm') as (Hl & Hc & Hset & _).
  fold pm'' in Hl, Hc, Hset.
  split_and!; try done.
  - unfold is_completed. rewrite Hset. apply bool_decide_eq_true. set_solver.
Qed.

(** What a run of marking calls keeps true of a manager that started
    without a file. *)
Lemma run_new_invariant cs pm :
  set_synced pm →
  completed_urls (state pm) = Z.of_nat (length (completed_url_list (state pm))) →
  current_page (state pm) = 0 →
  (completed_url_list (state pm) = [] → scraped_data (state pm) = []) →
  let pm' := run cs pm in
  completed_urls (state pm') = Z.of_nat (length (completed_url_list (state pm'))) ∧
  current_page (state pm') = 0 ∧
  (completed_url_list (state pm') = [] → scraped_data (state pm') = []).
Proof.
  revert pm. induction cs as [|c cs IH]; intros pm Hs Hn Hp Hd; [done|].
  simpl. destruct c as [t now v data|now v err]; simpl.
  - apply IH.
    + by apply mark_completed_synced.
    + destruct (mark_completed_effect t now v data pm) as (-> & -> & _).
      destruct (decide (v ∈ _completed_set pm)); [done|].
      rewrite length_app, Nat2Z.inj_add. simpl. lia.
    + unfold mark_completed.
      match goal with |- context [_maybe_auto_save now ?x] =>
        destruct (auto_save_state now x) as [_ [->| ->]] end;
        destruct data as [d|]; [destruct (truthy_dict (Some d))| |
                                destruct (truthy_dict (Some d))|];
        destruct (decide (v ∈ _completed_set pm)); done.
    + destruct (mark_completed_effect t now v data pm) as (-> & _ & _ & _ & _ & ->).
      destruct (decide (v ∈ _completed_set pm)) as [Hin|Hout].
      * intros E. exfalso. rewrite Hs, E in Hin. set_solver.
      * intros E. by apply app_nil in E as [_ ?].
  - apply IH.
    + by apply mark_failed_synced.
    + by destruct (mark_failed_effect now v err pm) as (_ & -> & -> & _).
    + unfold mark_failed.
      match goal with |- context [_maybe_auto_save now ?x] =>
        destruct (auto_save_state now x) as [_ [->| ->]] end;
        destruct (decide (v ∈ failed_url_list (state pm))); done.
    + by destruct (mark_failed_effect now v err pm) as (_ & -> & _ & _ & _ & ->).
Qed.


End ProgressExtras.

(* ===================================================================== *)
(** * Further properties of AdaptiveRateLimiter                           *)
(* ===================================================================== *)

Module BackoffExtras.
Import Backoff.

Lemma level_of_value v :
  0 ≤ v ≤ 3 → ∃ lvl, BlockLevel_of v = Returns lvl ∧ value lvl = v.
Proof.
  intros Hv.
  assert (Hcases : v = 0 ∨ v = 1 ∨ v = 2 ∨ v = 3) by lia.
  destruct Hcases as [-> | [-> | [-> | ->]]]; eauto.
Qed.

Lemma level_range lvl : 0 ≤ value lvl ≤ 3.
Proof. destruct lvl; simpl; lia. Qed.

(** One success, spelled out on the counters. *)
Lemma report_success_step l :
  ∃ l', report_success l = Returns l' ∧
        blocked_at l' = blocked_at l ∧ request_count l' = request_count l ∧
        config l' = config l ∧ consecutive_failures l' = 0 ∧
        ((5 ≤ consecutive_successes l + 1 ∧ 0 < value (block_level l) ∧
          value (block_level l') = value (block_level l) - 1 ∧
          consecutive_successes l' = 0) ∨
         ((consecutive_successes l + 1 < 5 ∨ value (block_level l) = 0) ∧
          block_level l' = block_level l ∧
          consecutive_successes l' = consecutive_successes l + 1)).
Proof.
  unfold report_success.
  destruct (Z.leb_spec 5 (consecutive_successes l + 1)) as [H5|H5];
    destruct (Z.ltb_spec 0 (value (block_level l))) as [Hl|Hl]; simpl.
  - destruct (level_of_value (value (block_level l) - 1)) as (lvl & -> & Hv).
    { pose proof (level_range (block_level l)). lia. }
    simpl. eexists. split; [done|]. simpl. split_and!; try done. left. done.
  - eexists. split; [done|]. simpl. split_and!; try done. right.
    pose proof (level_range (block_level l)). split_and!; try done. right. lia.
  - eexists. split; [done|]. simpl. split_and!; try done. right.
    split_and!; try done. by left.
  - eexists. split; [done|]. simpl. split_and!; try done. right.
    split_and!; try done. by left.
Qed.

(** X10: de-escalation is gradual.  Starting with no success counted (as
    right after a failure), [n] consecutive successes lower the level by
    one for every full run of five, down to NONE and no further: the new
    level is [level - min(level, n / 5)], and the success counter holds
    the successes not yet spent on a step. *)
Theorem successes_lower_level_every_five (n : nat) l :
  consecutive_successes l = 0 →
  let k := Z.min (value (block_level l)) (Z.of_nat n / 5) in
  ∃ l',
    report_successes n l = Returns l' ∧
    value (block_level l') = value (block_level l) - k ∧
    consecutive_successes l' = Z.of_nat n - 5 * k ∧
    consecutive_failures l' = (if n is O then consecutive_failures l else 0).
Proof.
  intros H0. induction n as [|n IH].
  - simpl. exists l. pose proof (level_range (block_level l)).
    split_and!; [done | | | done].
    + change (Z.of_nat 0 / 5) with 0. lia.
    + change (Z.of_nat 0 / 5) with 0. lia.
  - cbn zeta in *. destruct IH as (l1 & H1 & Hv1 & Hs1 & _).
    simpl. rewrite H1. simpl.
    destruct (report_success_step l1) as (l' & -> & _ & _ & _ & Hf & Hcase).
    exists l'. split; [done|].
    pose proof (level_range (block_level l)) as HL.
    rewrite Nat2Z.inj_succ.
    destruct Hcase as [(H5 & Hpos & Hv & Hs)|(Hlt & Hv & Hs)].
    + split_and!; [| |done]; Z.div_mod_to_equations; lia.
    + rewrite Hv. split_and!; [| |done]; Z.div_mod_to_equations; lia.
Qed.

Lemma successes_lower_level_every_five_witness :
  let blocked := mkLimiter default_config SEVERE 0 2 0 (Some 0) None in
  (∃ l', report_successes 14 blocked = Returns l' ∧ value (block_level l') = 1) ∧
  (∃ l', report_successes 15 blocked = Returns l' ∧ value (block_level l') = 0).
Proof.
  intros blocked. split.
  - destruct (successes_lower_level_every_five 14 blocked eq_refl)
      as (l' & Hret & Hv & _).
    exists l'. split; [exact Hret | exact Hv].
  - destruct (successes_lower_level_every_five 15 blocked eq_refl)
      as (l' & Hret & Hv & _).
    exists l'. split; [exact Hret | exact Hv].
Defined.

Lemma report_failure_step c l :
  ∃ l', report_failure c l = Returns l' ∧
        request_count l' = request_count l ∧ config l' = config l ∧
        blocked_at l' = Some (default (request_count l) (blocked_at l)) ∧
        value (block_level l) ≤ value (block_level l') ∧
        value (block_level l') =
          Z.min (value (block_level l) + escalation c) 3.
Proof.
  unfold report_failure.
  destruct (level_of_value (Z.min (value (block_level l) + escalation c) (value SEVERE)))
    as (lvl & -> & Hv).
  { pose proof (level_range (block_level l)).
    assert (escalation c = 1 ∨ escalation c = 2).
    { destruct c as [z|]; simpl; [|by left].
      destruct ((z =? 429) || (z =? 403)); [by right | by left]. }
    simpl. lia. }
  simpl. eexists. split; [done|]. simpl.
  pose proof (level_range (block_level l)).
  assert (escalation c = 1 ∨ escalation c = 2).
  { destruct c as [z|]; simpl; [|by left].
    destruct ((z =? 429) || (z =? 403)); [by right | by left]. }
  split_and!; try done.
  - by destruct (blocked_at l).
  - simpl in Hv. lia.
Qed.

Lemma apply_reports_app rs1 rs2 l :
  apply_reports (rs1 ++ rs2) l = (l' ←! apply_reports rs1 l; apply_reports rs2 l').
Proof.
  revert l. induction rs1 as [|r rs1 IH]; intros l; simpl; [done|].
  destruct (apply_report r l); simpl; [apply IH | done].
Qed.

(** Until the first failure nothing is recorded as the blocking point,
    and the request count grows by the waits. *)
Lemma before_first_failure rs l :
  blocked_at l = None →
  Forall (λ r, is_failure r = false) rs →
  ∃ l', apply_reports rs l = Returns l' ∧
        blocked_at l' = None ∧
        request_count l' =
          request_count l + Z.of_nat (length (filter (λ r, Is_true (is_wait r)) rs)).
Proof.
  intros Hb Hall. revert l Hb.
  induction Hall as [|r rs Hr _ IH]; intros l Hb.
  - exists l. simpl. split_and!; [done | done | lia].
  - destruct r as [| |c]; [| |discriminate].
    + rewrite filter_cons_True by done. cbn [apply_reports apply_report obind].
      destruct (IH (wait l) Hb) as (l' & -> & Hb' & Hc').
      exists l'. split_and!; [done | done |].
      rewrite Hc'. cbn [length wait request_count]. lia.
    + rewrite filter_cons_False by (simpl; tauto).
      cbn [apply_reports apply_report].
      destruct (report_success_step l) as (l1 & -> & Hb1 & Hc1 & _).
      cbn [obind].
      destruct (IH l1 ltac:(congruence)) as (l' & -> & Hb' & Hc').
      exists l'. split_and!; [done | done |].
      by rewrite Hc', Hc1.
Qed.

(** Once recorded, the blocking point stays. *)
Lemma after_first_failure rs l b :
  blocked_at l = Some b →
  ∃ l', apply_reports rs l = Returns l' ∧ blocked_at l' = Some b.
Proof.
  revert l. induction rs as [|r rs IH]; intros l Hb; [by exists l|].
  destruct r as [| |c]; simpl.
  - by apply IH.
  - destruct (report_success_step l) as (l1 & -> & Hb1 & _). simpl.
    apply IH. congruence.
  - destruct (report_failure_step c l) as (l1 & -> & _ & _ & Hb1 & _). simpl.
    apply IH. by rewrite Hb1, Hb.
Qed.

(** X11: [blocked_at] is the number of requests counted when the first
    failure of the session is reported, i.e. the waits that came before
    it; no later wait, success or failure changes it. *)
Theorem blocked_at_is_first_failure pre c post l :
  blocked_at l = None →
  Forall (λ r, is_failure r = false) pre →
  ∃ l',
    apply_reports (pre ++ FailedWith c :: post) l = Returns l' ∧
    blocked_at l' =
      Some (request_count l +
            Z.of_nat (length (filter (λ r, Is_true (is_wait r)) pre))).
Proof.
  intros Hb Hpre.
  destruct (before_first_failure pre l Hb Hpre) as (l1 & H1 & Hb1 & Hc1).
  rewrite apply_reports_app, H1. simpl.
  destruct (report_failure_step c l1) as (l2 & -> & _ & _ & Hb2 & _). simpl.
  rewrite Hb1 in Hb2. simpl in Hb2. rewrite Hc1 in Hb2.
  by apply after_first_failure.
Qed.

Lemma blocked_at_is_first_failure_witness :
  ∃ l',
    apply_reports
      ([Waited; Succeeded; Waited; Succeeded] ++
       FailedWith (Some 429) :: [Waited; FailedWith None; Waited; Succeeded])
      (init default_config None) = Returns l' ∧
    blocked_at l' = Some 2.
Proof.
  apply (blocked_at_is_first_failure [Waited; Succeeded; Waited; Succeeded]
           (Some 429) [Waited; FailedWith None; Waited; Succeeded]
           (init default_config None)).
  - reflexivity.
  - repeat constructor.
Defined.

Lemma pow2_level_le a b :
  value a ≤ value b → (inject_Z (2 ^ value a) <= inject_Z (2 ^ value b))%Q.
Proof.
  intros Hab. rewrite <- Zle_Qle.
  apply Z.pow_le_mono_r; [lia | done].
Qed.

Lemma Qmult_le_nonneg_l (x y z : Q) : (0 <= z → x <= y → z * x <= z * y)%Q.
Proof.
  intros Hz Hxy. rewrite (Qmult_comm z x), (Qmult_comm z y).
  by apply Qmult_le_compat_r.
Qed.

(** X12: the delay window follows the level.  With non-negative base
    delays, a reported failure never lowers either bound of the window
    from which [get_delay] draws, a reported success never raises one, and
    both bounds are the base delays times [2 ** level], at most 8 times
    the base. *)
Theorem delay_window_follows_level c l :
  (0 <= min_delay (config l))%Q →
  (0 <= max_delay (config l))%Q →
  (∃ l', report_failure c l = Returns l' ∧
         ((delay_window l).1 <= (delay_window l').1)%Q ∧
         ((delay_window l).2 <= (delay_window l').2)%Q) ∧
  (∃ l', report_success l = Returns l' ∧
         ((delay_window l').1 <= (delay_window l).1)%Q ∧
         ((delay_window l').2 <= (delay_window l).2)%Q) ∧
  ((delay_window l).1 <= min_delay (config l) * 8)%Q ∧
  ((delay_window l).2 <= max_delay (config l) * 8)%Q.
Proof.
  intros Hmin Hmax. unfold delay_window. simpl. split_and!.
  - destruct (report_failure_step c l) as (l' & -> & _ & Hcfg & _ & Hle & _).
    exists l'. split; [done|]. rewrite Hcfg.
    split; (apply Qmult_le_nonneg_l; [done | by apply pow2_level_le]).
  - destruct (report_success_step l) as (l' & -> & _ & _ & Hcfg & _ & Hcase).
    exists l'. split; [done|]. rewrite Hcfg.
    assert (Hle : value (block_level l') ≤ value (block_level l)).
    { destruct Hcase as [(_ & _ & -> & _)|(_ & -> & _)]; lia. }
    split; (apply Qmult_le_nonneg_l; [done | by apply pow2_level_le]).
  - apply Qmult_le_nonneg_l; [done|]. change 8%Q with (inject_Z (2 ^ value SEVERE)).
    apply pow2_level_le. pose proof (level_range (block_level l)). simpl. lia.
  - apply Qmult_le_nonneg_l; [done|]. change 8%Q with (inject_Z (2 ^ value SEVERE)).
    apply pow2_level_le. pose proof (level_range (block_level l)). simpl. lia.
Qed.

Lemma delay_window_follows_level_witness :
  ∃ l', report_failure (Some 429) (init default_config None) = Returns l' ∧
        delay_window (init default_config None) = (2 * 1, 5 * 1)%Q ∧
        ((delay_window (init default_config None)).1 <= (delay_window l').1)%Q.
Proof.
  destruct (delay_window_follows_level (Some 429) (init default_config None))
    as ((l' & Hret & Hlo & _) & _); [discriminate | discriminate |].
  exists l'. split_and!; [exact Hret | reflexivity | exact Hlo].
Defined.

End BackoffExtras.

(* ===================================================================== *)
(** * Further properties of the rate limiters                             *)
(* ===================================================================== *)

Module RateLimiterExtras.
Import TokenBucket.

Local Open Scope Q_scope.

(** For a positive rate [acquire] returns, its wait is never negative,
    and the rate, the capacity and the new [last_update] are as given. *)
Lemma acquire_wait now n b :
  0 < rate b →
  ∃ w b',
    acquire now n b = (Returns w, b') ∧ 0 <= w ∧
    rate b' = rate b ∧ capacity b' = capacity b ∧ last_update b' = now ∧
    (inject_Z n <= refill now b → w = 0 ∧ tokens b' = refill now b - inject_Z n) ∧
    (refill now b < inject_Z n →
       w = (inject_Z n - refill now b) / rate b ∧ tokens b' = 0).
Proof.
  intros Hrate. unfold acquire.
  destruct (Qlt_le_dec (refill now b) (inject_Z n)) as [Hlt|Hge].
  - destruct (Qeq_dec (rate b) 0) as [E|_].
    { rewrite E in Hrate. by apply Qlt_irrefl in Hrate. }
    eexists _, _. split; [reflexivity|]. simpl. split_and!; try done.
    + apply Qle_shift_div_l; [done|]. lra.
    + intros Hle. exfalso. apply (Qlt_irrefl (refill now b)).
      eapply Qlt_le_trans; eauto.
  - eexists _, _. split; [reflexivity|]. simpl. split_and!; try done.
    intros Hlt. exfalso. apply (Qlt_irrefl (refill now b)).
    eapply Qlt_le_trans; eauto.
Qed.

Lemma refill_ge now b :
  0 < rate b → last_update b <= now → tokens b <= inject_Z (capacity b) →
  tokens b <= refill now b.
Proof.
  intros Hrate Hnow Hcap. unfold refill. apply Q.min_glb; [done|].
  assert (0 <= (now - last_update b) * rate b).
  { apply Qmult_le_0_compat; lra. }
  lra.
Qed.

(** X13: the bucket allows a burst.  With a positive rate, a bucket that
    holds at least [k] tokens (and no more than its capacity) serves [k]
    successive [acquire(1)] calls, made at any non-decreasing times from
    its last update on, without making any of them wait. *)
Theorem burst_is_served_without_wait times b :
  0 < rate b →
  ascending (last_update b) times →
  tokens b <= inject_Z (capacity b) →
  inject_Z (Z.of_nat (length times)) <= tokens b →
  Forall (λ w, w = Returns 0) (acquire_each times b).1.
Proof.
  revert b. induction times as [|t times IH]; intros b Hrate Hasc Hcap Hk; simpl.
  - constructor.
  - destruct Hasc as [Ht Hasc].
    destruct (acquire_wait t 1 b Hrate) as (w & b1 & E & _ & Hr & Hc & Hl & Htake & _).
    rewrite E.
    pose proof (refill_ge t b Hrate Ht Hcap) as Hge.
    assert (Hlen : inject_Z (Z.of_nat (length (t :: times))) =
                   inject_Z (Z.of_nat (length times) + 1)).
    { simpl length. by rewrite Nat2Z.inj_succ. }
    rewrite Hlen, inject_Z_plus in Hk. change (inject_Z 1) with 1 in *.
    assert (Hn : 0 <= inject_Z (Z.of_nat (length times))).
    { change 0 with (inject_Z 0). rewrite <- Zle_Qle. lia. }
    destruct Htake as [-> Htok]; [lra|].
    specialize (IH b1).
    destruct (acquire_each times b1) as [ws b2]. simpl.
    constructor; [done|]. apply IH.
    + by rewrite Hr.
    + by rewrite Hl.
    + rewrite Htok, Hc. pose proof (Q.le_min_l (inject_Z (capacity b))
        (tokens b + (t - last_update b) * rate b)) as Hm.
      unfold refill. lra.
    + rewrite Htok. lra.
Qed.

Lemma burst_is_served_without_wait_witness :
  Forall (λ w, w = Returns 0)
    (acquire_each [0; 0; (1 # 10); (1 # 5); (1 # 5)] (init 5 None 0)).1.
Proof.
  apply (burst_is_served_without_wait [0; 0; (1 # 10); (1 # 5); (1 # 5)]
           (init 5 None 0)).
  - reflexivity.
  - simpl. repeat split; discriminate.
  - simpl. apply Qle_refl.
  - discriminate.
Defined.


Lemma acquire_wait_any now n b :
  0 < rate b →
  ∃ w b', acquire now n b = (Returns w, b') ∧ 0 <= w ∧ rate b' = rate b.
Proof.
  intros Hrate.
  destruct (acquire_wait now n b Hrate) as (w & b' & E & Hw & Hr & _). eauto.
Qed.

End RateLimiterExtras.

Module DomainLimiterExtras.
Import PyLib DomainLimiter.

Local Open Scope Q_scope.



End DomainLimiterExtras.

(* ===================================================================== *)
(** * Further properties of _scrape_single                                *)
(* ===================================================================== *)

Module ScraperExtras.
Import PyLib Scraper.

Lemma fetch_effect_full env u rc s :
  ∃ s', fetch env u rc s = (attempt_result env u rc, s') ∧
        attempt_result env u rc ≠ Suspended ∧
        log s' = log s ++ (if CRAWL4AI_AVAILABLE env then [Crawled u] else []) ∧
        semaphores s' = semaphores s ∧
        global_semaphore s' = global_semaphore s ∧
        config s' = config s ∧ _shutdown s' = _shutdown s ∧
        retried s' = retried s ∧
        progress s' = progress_after env u rc (progress s).
Proof.
  unfold fetch, attempt_result, progress_after.
  destruct (CRAWL4AI_AVAILABLE env); simpl.
  - unfold bind, emit, progress_mark_completed, ret, raise. simpl.
    destruct (crawl env u rc) as [t c m|[[|c0 r0]|]|e]; simpl;
      destruct (progress s) eqn:Ep; simpl; eexists; (split; [reflexivity|]);
      simpl; rewrite ?Ep; done.
  - unfold ret. eexists. split; [reflexivity|]. simpl.
    rewrite app_nil_r. by destruct (progress s).
Qed.

(** One attempt with a free permit on both semaphores, in full. *)
Lemma attempt_effect env u rc s :
  let domain := netloc (urlparse u) in
  0 < free_permits domain s →
  0 < global_semaphore s →
  ∃ s',
    attempt env u rc s = (attempt_result env u rc, s') ∧
    attempt_result env u rc ≠ Suspended ∧
    config s' = config s ∧ _shutdown s' = _shutdown s ∧
    retried s' = retried s ∧
    progress s' = progress_after env u rc (progress s) ∧
    global_semaphore s' = global_semaphore s ∧
    free_permits domain s' = free_permits domain s ∧
    (∀ k, k ≠ domain → semaphores s' !! k = semaphores s !! k) ∧
    log s' = log s ++ [RateLimited u; Acquired (DomainSem domain); Acquired GlobalSem]
                   ++ (if CRAWL4AI_AVAILABLE env then [Crawled u] else [])
                   ++ [Released (DomainSem domain); Released GlobalSem].
Proof.
  intros domain Hdom Hglob. unfold free_permits in *.
  set (v := default (max_per_domain (config s)) (semaphores s !! domain)) in *.
  unfold attempt, bind at 1 2 3, emit at 1.
  set (s1 := with_log (log s ++ [RateLimited u]) s).
  pose proof (ScraperTheorems.domain_acquire_free u s1) as Hda. cbv zeta in Hda.
  fold domain in Hda. change (default _ _) with v in Hda.
  rewrite (Hda Hdom). clear Hda.
  set (s2 := with_log _ (with_semaphores _ s1)).
  rewrite (ScraperTheorems.global_acquire_free s2 Hglob).
  set (s3 := with_log _ (with_global_semaphore _ s2)).
  unfold try_finally.
  destruct (fetch_effect_full env u rc s3)
    as (s4 & -> & Hres & Hlog4 & Hsem4 & Hglob4 & Hcfg4 & Hsh4 & Hre4 & Hpr4).
  assert (Hlook : semaphores s4 !! domain = Some (v - 1)).
  { rewrite Hsem4. simpl. apply lookup_insert_eq. }
  pose proof (ScraperTheorems.releases_effect u s4 (v - 1)) as Hrel. cbv zeta in Hrel.
  fold domain in Hrel. rewrite (Hrel Hlook). clear Hrel.
  eexists. split.
  { destruct (attempt_result env u rc); [reflexivity | reflexivity | done]. }
  simpl. split_and!; try done.
  - rewrite Hglob4. simpl. lia.
  - rewrite lookup_insert_eq. simpl. lia.
  - intros k Hk. rewrite lookup_insert_ne by done. rewrite Hsem4. simpl.
    by rewrite lookup_insert_ne.
  - rewrite Hlog4. simpl. by rewrite <- !app_assoc.
Qed.

Lemma semaphore_events_app l1 l2 :
  semaphore_events (l1 ++ l2) = semaphore_events l1 ++ semaphore_events l2.
Proof. unfold semaphore_events. apply filter_app. Qed.

Lemma crawls_app l1 l2 : crawls (l1 ++ l2) = (crawls l1 + crawls l2)%nat.
Proof. unfold crawls. by rewrite filter_app, length_app. Qed.

Lemma attempt_log_events env u domain l :
  semaphore_events
    (l ++ [RateLimited u; Acquired (DomainSem domain); Acquired GlobalSem]
       ++ (if CRAWL4AI_AVAILABLE env then [Crawled u] else [])
       ++ [Released (DomainSem domain); Released GlobalSem]) =
    semaphore_events l ++ attempts_events domain 1 ∧
  crawls
    (l ++ [RateLimited u; Acquired (DomainSem domain); Acquired GlobalSem]
       ++ (if CRAWL4AI_AVAILABLE env then [Crawled u] else [])
       ++ [Released (DomainSem domain); Released GlobalSem]) =
    (crawls l + (if CRAWL4AI_AVAILABLE env then 1 else 0))%nat.
Proof.
  rewrite semaphore_events_app, crawls_app.
  destruct (CRAWL4AI_AVAILABLE env); done.
Qed.

(** The two early returns of [_scrape_single], and the attempt under
    [try ... except] otherwise. *)
Lemma scrape_from_cases n env u rc s :
  (tracked_completed u s = true →
   scrape_from n env u rc s =
     (Val (mkScrapeResult u true "" "" "" (Some "Already completed (skipped)") None 0), s)) ∧
  (tracked_completed u s = false → _shutdown s = true →
   scrape_from n env u rc s =
     (Val (mkScrapeResult u false "" "" "" (Some "Shutdown requested") None 0), s)).
Proof.
  unfold tracked_completed. split.
  - intros H. destruct n; simpl; by rewrite H.
  - intros H Hs. destruct n; simpl; by rewrite H, Hs.
Qed.

Lemma scrape_from_balanced n env u rc s :
  let domain := netloc (urlparse u) in
  0 < free_permits domain s →
  0 < global_semaphore s →
  ∃ r s' k,
    scrape_from n env u rc s = (r, s') ∧ r ≠ Suspended ∧
    (k ≤ S n)%nat ∧
    semaphore_events (log s') = semaphore_events (log s) ++ attempts_events domain k ∧
    (crawls (log s') ≤ crawls (log s) + k)%nat ∧
    global_semaphore s' = global_semaphore s ∧
    free_permits domain s' = free_permits domain s ∧
    retried s ≤ retried s' ≤ retried s + Z.of_nat n ∧
    config s' = config s ∧ _shutdown s' = _shutdown s.
Proof.
  intros domain. revert rc s.
  induction n as [|n IH]; intros rc s Hdom Hglob.
  all: destruct (tracked_completed u s) eqn:Hdone;
    [ rewrite (proj1 (scrape_from_cases _ env u rc s) Hdone);
      eexists _, s, 0%nat; rewrite app_nil_r;
      split_and!; try done; lia |].
  all: destruct (_shutdown s) eqn:Hshut;
    [ rewrite (proj2 (scrape_from_cases _ env u rc s) Hdone Hshut);
      eexists _, s, 0%nat; rewrite app_nil_r;
      split_and!; try done; lia |].
  all: unfold tracked_completed in Hdone; cbn [scrape_from]; rewrite Hdone, Hshut;
    unfold try_except;
    destruct (attempt_effect env u rc s Hdom Hglob)
      as (s1 & -> & Hres & Hcfg & Hsh & Hre & Hpr & Hg1 & Hf1 & _ & Hlog);
    destruct (attempt_log_events env u domain (log s)) as [Hev Hcr];
    fold domain in Hlog, Hf1; rewrite <- Hlog in Hev, Hcr.
  - (* no retry left *)
    destruct (attempt_result env u rc) as [r|e|]; [| |done].
    + eexists _, s1, 1%nat.
      split_and!; try done; try lia; try congruence.
      rewrite Hcr. destruct (CRAWL4AI_AVAILABLE env); lia.
    + destruct (is_Exception e).
      * unfold bind, progress_mark_failed, ret.
        destruct (progress s1); eexists _, _, 1%nat;
          (split; [reflexivity|]); simpl;
          (split_and!;
           first [ done | lia | congruence
                 | rewrite Hcr; destruct (CRAWL4AI_AVAILABLE env); lia
                 | unfold free_permits in *; simpl; congruence ]).
      * eexists _, s1, 1%nat.
        split_and!; try done; try lia; try congruence.
        rewrite Hcr. destruct (CRAWL4AI_AVAILABLE env); lia.
  - (* a retry is allowed *)
    destruct (attempt_result env u rc) as [r|e|]; [| |done].
    + eexists _, s1, 1%nat.
      split_and!; try done; try lia; try congruence.
      rewrite Hcr. destruct (CRAWL4AI_AVAILABLE env); lia.
    + destruct (is_Exception e).
      * rewrite Hsh, Hshut. cbn [negb]. unfold bind at 1, emit.
        set (s2 := with_log _ (with_retried _ s1)).
        destruct (IH (rc + 1) s2)
          as (r & s' & k & -> & Hr & Hk & Hev' & Hcr' & Hg' & Hf' & Hre' & Hcfg' & Hsh').
        { change (0 < free_permits domain s1). by rewrite Hf1. }
        { subst s2. simpl. lia. }
        change (free_permits domain s2) with (free_permits domain s1) in Hf'.
        exists r, s', (S k). subst s2. simpl in *.
        split_and!; try done; try lia; try congruence.
        -- rewrite Hev', semaphore_events_app, Hev. simpl. rewrite app_nil_r.
           by rewrite <- app_assoc.
        -- assert (H0 : ∀ q, crawls [Slept q] = 0%nat) by done.
           rewrite crawls_app, Hcr, H0 in Hcr'.
           destruct (CRAWL4AI_AVAILABLE env); lia.
      * eexists _, s1, 1%nat.
        split_and!; try done; try lia; try congruence.
        rewrite Hcr. destruct (CRAWL4AI_AVAILABLE env); lia.
Qed.



Lemma failed_attempt_keeps_progress env u rc e p :
  attempt_result env u rc = Exc e → progress_after env u rc p = p.
Proof.
  unfold attempt_result, progress_after.
  destruct p as [pm|]; [|done].
  destruct (CRAWL4AI_AVAILABLE env); simpl; [|done].
  by destruct (crawl env u rc) as [t c m|[[|c0 r0]|]|e0].
Qed.

Lemma failed_attempt_crawls env u rc e :
  attempt_result env u rc = Exc e → CRAWL4AI_AVAILABLE env = true.
Proof.
  unfold attempt_result. by destruct (CRAWL4AI_AVAILABLE env).
Qed.



Lemma scrape_from_exhausts n env u s :
  let domain := netloc (urlparse u) in
  ∀ rc,
  (∀ i, rc ≤ i → ∃ e, attempt_result env u i = Exc e ∧ is_Exception e = true) →
  tracked_completed u s = false →
  _shutdown s = false →
  0 < free_permits domain s →
  0 < global_semaphore s →
  ∃ s' e,
    attempt_result env u (rc + Z.of_nat n) = Exc e ∧
    scrape_from n env u rc s =
      (Val (mkScrapeResult u false "" "" "" (Some (str_of_exn e)) None (rc + Z.of_nat n)), s') ∧
    retried s' = retried s + Z.of_nat n ∧
    crawls (log s') = (crawls (log s) + S n)%nat ∧
    semaphore_events (log s') =
      semaphore_events (log s) ++ attempts_events domain (S n) ∧
    global_semaphore s' = global_semaphore s ∧
    free_permits domain s' = free_permits domain s ∧
    progress s' =
      match progress s with
      | Some pm =>
          Some (Progress.mark_failed (clock env (rc + Z.of_nat n)) u (str_of_exn e) pm)
      | None => None
      end.
Proof.
  intros domain. revert s.
  induction n as [|n IH]; intros s rc Hfail Hdone Hshut Hdom Hglob.
  all: destruct (Hfail rc ltac:(lia)) as (e & Hres & Hexc).
  all: destruct (attempt_effect env u rc s Hdom Hglob)
      as (s1 & E & _ & Hcfg & Hsh & Hre & Hpr & Hg1 & Hf1 & _ & Hlog).
  all: destruct (attempt_log_events env u domain (log s)) as [Hev Hcr].
  all: fold domain in Hlog, Hf1; rewrite <- Hlog in Hev, Hcr.
  all: rewrite (failed_attempt_keeps_progress _ _ _ _ _ Hres) in Hpr.
  all: rewrite (failed_attempt_crawls _ _ _ _ Hres) in Hcr.
  all: pose proof Hdone as Hdone'; unfold tracked_completed in Hdone'.
  all: cbn [scrape_from]; rewrite Hdone', Hshut; unfold try_except;
    rewrite E, Hres, Hexc.
  - rewrite Z.add_0_r. unfold bind, progress_mark_failed, ret. rewrite Hpr.
    destruct (progress s) as [pm|]; eexists _, e; (split; [done|]);
      (split; [reflexivity|]); simpl;
      (split_and!; first [done | lia | congruence]).
  - rewrite Hsh, Hshut. cbn [negb]. unfold bind at 1, emit.
    set (s2 := with_log _ (with_retried _ s1)).
    destruct (IH s2 (rc + 1)) as (s' & e' & Hres' & -> & Hre' & Hcr' & Hev' & Hg' & Hf' & Hpr').
    { intros i Hi. apply Hfail. lia. }
    { unfold tracked_completed. subst s2. simpl. by rewrite Hpr. }
    { subst s2. simpl. congruence. }
    { change (0 < free_permits domain s1). by rewrite Hf1. }
    { subst s2. simpl. lia. }
    change (free_permits domain s2) with (free_permits domain s1) in Hf'.
    replace (rc + 1 + Z.of_nat n) with (rc + Z.of_nat (S n)) in * by lia.
    exists s', e'. subst s2. simpl in *.
    assert (H0 : ∀ q, crawls [Slept q] = 0%nat) by done.
    rewrite crawls_app, H0, Hcr in Hcr'.
    rewrite semaphore_events_app, Hev in Hev'. simpl in Hev'.
    rewrite app_nil_r, <- app_assoc in Hev'. rewrite Hpr in Hpr'.
    split_and!; first [done | lia | congruence].
Qed.





(** X19: the retry back-off is exponential, capped and never shrinks.
    For retry indices [0 <= rc <= rc'] and a non-negative base delay, the
    delay before retry [rc] is [retry_base_delay * 2 ** rc] as long as
    that is below [retry_max_delay] and [retry_max_delay] otherwise, is
    not longer than the one before retry [rc'], and with its jitter of at
    most a tenth stays within 1.1 times [retry_max_delay]. *)
Theorem backoff_delay_is_capped_and_monotone c rc rc' :
  0 ≤ rc ≤ rc' →
  (0 <= retry_base_delay c)%Q →
  (backoff_delay c rc <= retry_max_delay c)%Q ∧
  (backoff_delay c rc <= backoff_delay c rc')%Q ∧
  ((retry_base_delay c * inject_Z (2 ^ rc) <= retry_max_delay c)%Q →
   backoff_delay c rc = (retry_base_delay c * inject_Z (2 ^ rc))%Q) ∧
  ((retry_max_delay c < retry_base_delay c * inject_Z (2 ^ rc))%Q →
   backoff_delay c rc = retry_max_delay c) ∧
  (∀ j, (0 <= j)%Q → (j <= backoff_delay c rc * (1 # 10))%Q →
        (backoff_delay c rc + j <= retry_max_delay c * (11 # 10))%Q).
Proof.
  intros Hrc Hbase. unfold backoff_delay.
  assert (Hpow : (inject_Z (2 ^ rc) <= inject_Z (2 ^ rc'))%Q).
  { rewrite <- Zle_Qle. apply Z.pow_le_mono_r; lia. }
  assert (Hmono : (retry_base_delay c * inject_Z (2 ^ rc) <=
                   retry_base_delay c * inject_Z (2 ^ rc'))%Q).
  { rewrite (Qmult_comm _ (inject_Z (2 ^ rc))), (Qmult_comm _ (inject_Z (2 ^ rc'))).
    by apply Qmult_le_compat_r. }
  split_and!.
  - apply Q.le_min_r.
  - by apply Q.min_le_compat_r.
  - intros Hle. unfold Qmin, GenericMinMax.gmin.
    destruct (Qcompare_spec (retry_base_delay c * inject_Z (2 ^ rc)) (retry_max_delay c))
      as [?|?|Hgt]; try done.
    exfalso. apply (Qlt_irrefl (retry_max_delay c)). by eapply Qlt_le_trans.
  - intros Hlt. unfold Qmin, GenericMinMax.gmin.
    destruct (Qcompare_spec (retry_base_delay c * inject_Z (2 ^ rc)) (retry_max_delay c))
      as [Heq|Hlt'|?]; try done.
    + exfalso. rewrite Heq in Hlt. by apply Qlt_irrefl in Hlt.
    + exfalso. apply (Qlt_irrefl (retry_max_delay c)). by eapply Qlt_trans.
  - intros j Hj0 Hj.
    pose proof (Q.le_min_r (retry_base_delay c * inject_Z (2 ^ rc)) (retry_max_delay c)).
    lra.
Qed.

Lemma backoff_delay_is_capped_and_monotone_witness :
  backoff_delay default_config 3 = (5 * inject_Z (2 ^ 3))%Q ∧
  backoff_delay default_config 4 = 60%Q ∧
  (backoff_delay default_config 3 <= backoff_delay default_config 4)%Q.
Proof.
  destruct (backoff_delay_is_capped_and_monotone default_config 3 4)
    as (_ & Hmono & Hbelow & _); [lia | discriminate |].
  destruct (backoff_delay_is_capped_and_monotone default_config 4 4)
    as (_ & _ & _ & Habove & _); [lia | discriminate |].
  split_and!; [apply Hbelow; discriminate | apply Habove; reflexivity | exact Hmono].
Defined.

End ScraperExtras.

(* ===================================================================== *)
(** * Further properties of ExperienceManager                             *)
(* ===================================================================== *)

Module ExperienceExtras.
Import PyLib Experience ExperienceFacts.

Lemma stored_record_dset_other d d' s v p :
  d ≠ d' → stored_record d' s (dset d v p) = stored_record d' s p.
Proof. intros Hne. unfold stored_record. by rewrite dget_dset_ne. Qed.

Lemma sum_pattern_counts_meta acc v p :
  sum_pattern_counts acc (dset "_meta" v p) = sum_pattern_counts acc p.
Proof.
  revert acc. induction p as [|[k x] p IH]; intros acc; simpl.
  - done.
  - destruct (decide ("_meta" = k)) as [<-|Hne]; simpl.
    + rewrite ?decide_True by done. done.
    + destruct (decide (k = "_meta")); [congruence|].
      destruct (as_dict x); simpl; [|done].
      destruct (py_len _); simpl; [apply IH | done].
Qed.

Lemma sum_successes_meta acc v p :
  sum_successes acc (dset "_meta" v p) = sum_successes acc p.
Proof.
  revert acc. induction p as [|[k x] p IH]; intros acc; simpl.
  - done.
  - destruct (decide ("_meta" = k)) as [<-|Hne]; simpl.
    + rewrite ?decide_True by done. done.
    + destruct (decide (k = "_meta")); [congruence|].
      destruct (as_dict x); simpl; [|done].
      destruct (as_dict _); simpl; [|done].
      destruct (sum_success_counts _ _); simpl; [apply IH | done].
Qed.

Lemma set_meta_inv k v p p' :
  set_meta k v p = Returns p' →
  ∃ m, dget "_meta" p = Some (PDict m) ∧ p' = dset "_meta" (PDict (dset k v m)) p.
Proof.
  unfold set_meta.
  destruct (dget "_meta" p) as [[| | | | | |m]|]; try discriminate.
  intros [= <-]. eauto.
Qed.

(** What [save_pattern] does to a well-formed store, in full. *)
Lemma save_pattern_effect t_success t_created t_saved url data em :
  let domain := netloc (urlparse url) in
  let shape := _url_to_pattern url in
  well_formed (patterns em) = true →
  ∃ em' existing merged n total,
    save_pattern t_success t_created t_saved url data em = (Returns tt, em') ∧
    previous domain shape (patterns em) = PDict existing ∧
    merge t_success t_created data existing = Returns merged ∧
    stored_record domain shape (patterns em') = Some (PDict merged) ∧
    (∀ d s, (d ≠ domain ∨ s ≠ shape) →
            stored_record d s (patterns em') = stored_record d s (patterns em)) ∧
    well_formed (patterns em') = true ∧
    patterns_file em' = Some (patterns em') ∧
    sum_pattern_counts 0 (patterns em') = Returns n ∧
    sum_successes (PInt 0) (patterns em') = Returns total ∧
    (∃ meta, dget "_meta" (patterns em') = Some (PDict meta) ∧
             dget "total_patterns" meta = Some (PInt n) ∧
             dget "total_successes" meta = Some total ∧
             dget "last_updated" meta = Some (PStr t_saved)).
Proof.
  intros domain shape Hwf. apply well_formed_good in Hwf.
  unfold save_pattern. fold domain shape.
  set (p1 := if dmem domain (patterns em) then patterns em
             else dset domain (PDict [("url_patterns", PDict [])]) (patterns em)).
  assert (H1 : good p1 ∧ (∃ v, dget domain p1 = Some v) ∧
               ∀ d s, stored_record d s p1 = stored_record d s (patterns em)).
  { subst p1. unfold dmem. destruct (dget domain (patterns em)) as [v|] eqn:E.
    - split_and!; [done | eauto | done].
    - split_and!; [by apply good_dset | rewrite dget_dset_eq; eauto |].
      intros d s. destruct (decide (d = domain)) as [->|Hd].
      + unfold stored_record. by rewrite dget_dset_eq, E.
      + by apply stored_record_dset_other. }
  destruct H1 as (Hg1 & (v & E1) & Hsame1).
  destruct (wf_entry_inv v (good_lookup _ _ _ Hg1 E1)) as (entry & -> & Hentry).
  rewrite E1.
  set (entry2 := if dmem "url_patterns" entry then entry
                 else dset "url_patterns" (PDict []) entry).
  assert (H2 : ∃ records, dget "url_patterns" entry2 = Some (PDict records) ∧
                          forallb (λ kv, wf_record kv.2) records = true ∧
                          ∀ s, dget s records = stored_record domain s p1).
  { subst entry2. unfold dmem, stored_record. rewrite E1.
    destruct Hentry as [E|(records & E & Hrec)]; rewrite E.
    - rewrite dget_dset_eq. exists []. done.
    - eauto. }
  destruct H2 as (records & E2 & Hrec & Hsame2). rewrite E2.
  set (p2 := dset domain (PDict entry2) p1).
  assert (Hg2 : good p2).
  { apply good_dset; [done|]. simpl. by rewrite E2. }
  assert (H3 : ∃ existing, dget_or shape (PDict []) records = PDict existing ∧
                           wf_record (PDict existing) = true).
  { unfold dget_or. destruct (dget shape records) as [r|] eqn:E; simpl.
    - destruct (wf_record_inv r (forallb_dget _ _ _ _ Hrec E)) as (rd & -> & _).
      exists rd. split; [done|]. apply (forallb_dget _ _ _ _ Hrec E).
    - exists []. done. }
  destruct H3 as (existing & Hexisting & Hex). rewrite Hexisting. simpl.
  destruct (merge_good t_success t_created data existing Hex)
    as (merged & Hmerge & Hmerged & Hstatus).
  rewrite Hmerge.
  set (records3 := dset shape (PDict merged) records).
  set (entry3 := dset "url_patterns" (PDict records3) entry2).
  set (p3 := dset domain (PDict entry3) p2).
  assert (Hg3 : good p3).
  { apply good_dset; [done|]. subst entry3. simpl. rewrite dget_dset_eq.
    by apply forallb_dset. }
  assert (Hs3 : stored_record domain shape p3 = Some (PDict merged)).
  { unfold stored_record. subst p3 entry3 records3. by rewrite !dget_dset_eq. }
  assert (Hframe3 : ∀ d s, (d ≠ domain ∨ s ≠ shape) →
                           stored_record d s p3 = stored_record d s (patterns em)).
  { intros d s Hds. rewrite <- Hsame1.
    destruct (decide (d = domain)) as [->|Hd].
    - destruct Hds as [?|Hs]; [done|].
      unfold stored_record at 1. subst p3 entry3 records3.
      rewrite !dget_dset_eq. rewrite dget_dset_ne by done. apply Hsame2.
    - subst p3 p2. by rewrite !stored_record_dset_other. }
  destruct (sum_pattern_counts_good 0 p3 (proj2 Hg3)) as (n & Hn). rewrite Hn. simpl.
  destruct (set_meta_good "total_patterns" (PInt n) p3 Hg3 ltac:(done))
    as (p4 & E4 & Hg4). rewrite E4.
  destruct (sum_successes_good (PInt 0) p4 eq_refl (proj2 Hg4)) as (total & Ht & _).
  rewrite Ht. simpl.
  destruct (set_meta_good "total_successes" total p4 Hg4 ltac:(done))
    as (p5 & E5 & Hg5). rewrite E5.
  unfold _save_patterns. simpl.
  destruct (set_meta_good "last_updated" (PStr t_saved) p5 Hg5 ltac:(done))
    as (p6 & E6 & Hg6). rewrite E6.
  destruct (set_meta_inv _ _ _ _ E4) as (m3 & Em3 & ->).
  destruct (set_meta_inv _ _ _ _ E5) as (m4 & Em4 & ->).
  destruct (set_meta_inv _ _ _ _ E6) as (m5 & Em5 & ->).
  rewrite dget_dset_eq in Em4. injection Em4 as <-.
  rewrite dget_dset_eq in Em5. injection Em5 as <-.
  exists (mkExperienceManager
            (dset "_meta" (PDict (dset "last_updated" (PStr t_saved)
               (dset "total_successes" total (dset "total_patterns" (PInt n) m3))))
               (dset "_meta" (PDict (dset "total_successes" total
                  (dset "total_patterns" (PInt n) m3)))
                  (dset "_meta" (PDict (dset "total_patterns" (PInt n) m3)) p3)))
            (Some (dset "_meta" (PDict (dset "last_updated" (PStr t_saved)
               (dset "total_successes" total (dset "total_patterns" (PInt n) m3))))
               (dset "_meta" (PDict (dset "total_successes" total
                  (dset "total_patterns" (PInt n) m3)))
                  (dset "_meta" (PDict (dset "total_patterns" (PInt n) m3)) p3))))),
         existing, merged, n, total.
  simpl. split_and!.
  - done.
  - unfold previous. rewrite <- Hsame1, <- Hsame2. exact Hexisting.
  - done.
  - rewrite (stored_record_set_meta "last_updated" _ _ _ _ _ ltac:(done) E6).
    rewrite (stored_record_set_meta "total_successes" _ _ _ _ _ ltac:(done) E5).
    by rewrite (stored_record_set_meta "total_patterns" _ _ _ _ _ ltac:(done) E4).
  - intros d s Hds.
    rewrite (stored_record_set_meta "last_updated" _ _ _ _ _ ltac:(done) E6).
    rewrite (stored_record_set_meta "total_successes" _ _ _ _ _ ltac:(done) E5).
    rewrite (stored_record_set_meta "total_patterns" _ _ _ _ _ ltac:(done) E4).
    by apply Hframe3.
  - by apply well_formed_good.
  - done.
  - by rewrite !sum_pattern_counts_meta.
  - rewrite !sum_successes_meta. by rewrite sum_successes_meta in Ht.
  - eexists. rewrite dget_dset_eq. split; [done|]. split_and!.
    + rewrite (dget_dset_ne "last_updated" "total_patterns") by done.
      rewrite (dget_dset_ne "total_successes" "total_patterns") by done.
      apply dget_dset_eq.
    + rewrite (dget_dset_ne "last_updated" "total_successes") by done.
      apply dget_dset_eq.
    + apply dget_dset_eq.
Qed.

Lemma find_pattern_stored url em r :
  stored_record (netloc (urlparse url)) (_url_to_pattern url) (patterns em) = Some r →
  find_pattern url em = Returns r.
Proof.
  unfold stored_record, find_pattern.
  destruct (dget (netloc (urlparse url)) (patterns em)) as [[| | | | | |entry]|];
    try discriminate.
  simpl. unfold dget_or.
  destruct (dget "url_patterns" entry) as [[| | | | | |records]|]; try discriminate.
  simpl. by intros ->.
Qed.

Lemma merge_fields t_success t_created data existing merged :
  merge t_success t_created data existing = Returns merged →
  py_add (dget_or "success_count" (PInt 0) existing) (PInt 1)
    = Returns (default PNone (dget "success_count" merged)) ∧
  is_Some (dget "success_count" merged) ∧
  dget "fail_count" merged = Some (dget_or "fail_count" (PInt 0) existing) ∧
  dget "last_fail" merged = Some (dget_or "last_fail" PNone existing) ∧
  dget "created_at" merged = Some (dget_or "created_at" (PStr t_created) existing) ∧
  dget "last_success" merged = Some (PStr t_success) ∧
  dget "status" merged = Some (PStr "active") ∧
  (∀ k, k ∈ ["description"; "selectors"; "pagination"; "anti_block"; "notes"] →
        ∀ v, dget k data = Some v → dget k merged = Some v).
Proof.
  unfold merge.
  destruct (py_add (dget_or "success_count" (PInt 0) existing) (PInt 1)) as [c|e];
    [|discriminate].
  simpl. intros [= <-]. split_and!; try done; try (by eexists).
  intros k Hk v Hv. unfold dget_or.
  repeat (apply elem_of_cons in Hk as [->|Hk]; [simpl; by rewrite Hv|]).
  by apply elem_of_nil in Hk.
Qed.







(** What the first part of [record_failure] does when the shape has a
    record with a numeric [fail_count]. *)
Lemma count_failure_present t_fail t_saved domain shape em r c c' :
  good (patterns em) →
  stored_record domain shape (patterns em) = Some (PDict r) →
  dget "fail_count" r = Some c →
  py_add c (PInt 1) = Returns c' →
  ∃ em',
    count_failure t_fail t_saved domain shape em = (Returns tt, em') ∧
    stored_record domain shape (patterns em') =
      Some (PDict (dset "last_fail" (PStr t_fail) (dset "fail_count" c' r))) ∧
    (∀ d s, (d ≠ domain ∨ s ≠ shape) →
            stored_record d s (patterns em') = stored_record d s (patterns em)) ∧
    good (patterns em') ∧
    patterns_file em' = Some (patterns em').
Proof.
  intros Hg Hs Hc Hadd.
  pose proof Hs as Hs0. unfold stored_record in Hs.
  destruct (dget domain (patterns em)) as [[| | | | | |entry]|] eqn:E; try discriminate.
  destruct (dget "url_patterns" entry) as [[| | | | | |records]|] eqn:E2;
    try discriminate.
  pose proof (good_lookup _ _ _ Hg E) as Hentry. simpl in Hentry. rewrite E2 in Hentry.
  pose proof (forallb_dget _ _ _ _ Hentry Hs) as Hr. simpl in Hr.
  unfold count_failure. rewrite E. simpl. unfold dmem. rewrite E2. simpl.
  unfold dmem. rewrite Hs. simpl. rewrite Hc. simpl. rewrite Hadd. simpl.
  set (r2 := dset "last_fail" (PStr t_fail) (dset "fail_count" c' r)).
  set (p1 := dset domain
               (PDict (dset "url_patterns" (PDict (dset shape (PDict r2) records)) entry))
               (patterns em)).
  assert (Hg1 : good p1).
  { apply good_dset; [done|]. simpl. rewrite dget_dset_eq.
    apply forallb_dset; [done|]. subst r2. simpl.
    rewrite (dget_dset_ne "last_fail" "success_count") by done.
    by rewrite (dget_dset_ne "fail_count" "success_count") by done. }
  unfold _save_patterns. simpl. fold p1.
  destruct (set_meta_good "last_updated" (PStr t_saved) p1 Hg1 ltac:(done))
    as (p2 & E3 & Hg2).
  rewrite E3. exists (mkExperienceManager p2 (Some p2)).
  change (patterns (mkExperienceManager p2 (Some p2))) with p2.
  split_and!; try done.
  - rewrite (stored_record_set_meta "last_updated" _ _ _ _ _ ltac:(done) E3).
    unfold stored_record. subst p1. by rewrite !dget_dset_eq.
  - intros d s Hds.
    rewrite (stored_record_set_meta "last_updated" _ _ _ _ _ ltac:(done) E3).
    destruct (decide (d = domain)) as [->|Hd].
    + destruct Hds as [?|Hne]; [done|].
      unfold stored_record. subst p1. rewrite !dget_dset_eq, E, E2.
      by rewrite dget_dset_ne.
    + subst p1. by rewrite stored_record_dset_other.
Qed.

(** The first part of [record_failure] does nothing when the shape has
    no record. *)
Lemma count_failure_absent t_fail t_saved domain shape em :
  good (patterns em) →
  stored_record domain shape (patterns em) = None →
  count_failure t_fail t_saved domain shape em = (Returns tt, em).
Proof.
  intros Hg Hs. unfold stored_record in Hs. unfold count_failure.
  destruct (dget domain (patterns em)) as [v|] eqn:E; [|done].
  destruct (wf_entry_inv v (good_lookup _ _ _ Hg E)) as (entry & -> & Hentry).
  simpl. unfold dmem.
  destruct Hentry as [E2|(records & E2 & _)]; rewrite E2 in *; [done|].
  simpl. unfold dmem. by rewrite Hs.
Qed.

(** X23: a failure is counted on the record of the URL's shape.  When
    the store is well formed and that record has a numeric [fail_count],
    [record_failure] returns, the record's [fail_count] is one more and
    its [last_fail] is the time of the failure, every other field of the
    record and every other record are as before, the store is written to
    its file, and the lesson entry is put into the lessons file. *)
Theorem record_failure_counts_on_record t_fail t_saved today u error cause solution
    em lessons r c :
  well_formed (patterns em) = true →
  stored_record (netloc (urlparse u)) (_url_to_pattern u) (patterns em)
    = Some (PDict r) →
  dget "fail_count" r = Some c →
  is_number c = true →
  ∃ em' c' r',
    record_failure t_fail t_saved today u error cause solution em lessons =
      (Returns tt, em',
       Some (insert_lesson (default EmptyString lessons)
               (lesson_entry today (netloc (urlparse u)) (_url_to_pattern u)
                  u error cause solution))) ∧
    py_add c (PInt 1) = Returns c' ∧
    stored_record (netloc (urlparse u)) (_url_to_pattern u) (patterns em')
      = Some (PDict r') ∧
    dget "fail_count" r' = Some c' ∧
    dget "last_fail" r' = Some (PStr t_fail) ∧
    (∀ k, k ≠ "fail_count" → k ≠ "last_fail" → dget k r' = dget k r) ∧
    (∀ d s, (d ≠ netloc (urlparse u) ∨ s ≠ _url_to_pattern u) →
            stored_record d s (patterns em') = stored_record d s (patterns em)) ∧
    patterns_file em' = Some (patterns em') ∧
    well_formed (patterns em') = true.
Proof.
  intros Hwf Hs Hc Hnum. apply well_formed_good in Hwf.
  destruct (py_add_number c (PInt 1) Hnum eq_refl) as (c' & Hadd & _).
  destruct (count_failure_present t_fail t_saved _ _ em r c c' Hwf Hs Hc Hadd)
    as (em' & Hret & Hs' & Hframe & Hg' & Hfile).
  exists em', c', (dset "last_fail" (PStr t_fail) (dset "fail_count" c' r)).
  unfold record_failure. rewrite Hret. split_and!; try done.
  - rewrite (dget_dset_ne "last_fail" "fail_count") by done. apply dget_dset_eq.
  - apply dget_dset_eq.
  - intros k Hk1 Hk2. by rewrite !dget_dset_ne.
  - by apply well_formed_good.
Qed.

Lemma record_failure_counts_on_record_witness :
  ∃ em' r',
    fst (fst (record_failure "t1" "t2" "2026-01-01" "https://example.com/articles/42"
                "Timeout" "" "" articles_store None)) = Returns tt ∧
    snd (fst (record_failure "t1" "t2" "2026-01-01" "https://example.com/articles/42"
                "Timeout" "" "" articles_store None)) = em' ∧
    stored_record "example.com" "/articles/*" (patterns em') = Some (PDict r') ∧
    dget "fail_count" r' = Some (PInt 2) ∧
    dget "success_count" r' = Some (PInt 3) ∧
    dget "status" r' = Some (PStr "retired").
Proof.
  destruct (record_failure_counts_on_record "t1" "t2" "2026-01-01"
              "https://example.com/articles/42" "Timeout" "" "" articles_store None
              [("description", PStr "articles"); ("success_count", PInt 3);
               ("fail_count", PInt 1); ("status", PStr "retired")] (PInt 1))
    as (em' & c' & r' & Hret & Hadd & Hs & Hf & _ & Hkeep & _);
    [reflexivity | reflexivity | reflexivity | reflexivity |].
  exists em', r'. rewrite Hret.
  split; [reflexivity|]. split; [reflexivity|]. split; [exact Hs|]. split_and!.
  - rewrite Hf. f_equal. vm_compute in Hadd. congruence.
  - by rewrite Hkeep.
  - by rewrite Hkeep.
Defined.



(** X25: a record without [fail_count] makes [record_failure] raise.
    When the shape's record is a dictionary with no [fail_count] key, the
    in-place increment raises [KeyError]; the store, its file and the
    lessons file are left as they were: the failure is logged nowhere. *)
Theorem record_failure_needs_fail_count t_fail t_saved today u error cause solution
    em lessons r :
  stored_record (netloc (urlparse u)) (_url_to_pattern u) (patterns em)
    = Some (PDict r) →
  dget "fail_count" r = None →
  record_failure t_fail t_saved today u error cause solution em lessons =
    (Raises KeyError, em, lessons).
Proof.
  intros Hs Hc. unfold stored_record in Hs. unfold record_failure, count_failure.
  destruct (dget (netloc (urlparse u)) (patterns em)) as [[| | | | | |entry]|];
    try discriminate.
  destruct (dget "url_patterns" entry) as [[| | | | | |records]|] eqn:E2;
    try discriminate.
  simpl. unfold dmem. rewrite E2. simpl. unfold dmem. rewrite Hs. simpl.
  by rewrite Hc.
Qed.

Lemma record_failure_needs_fail_count_witness :
  record_failure "t1" "t2" "2026-01-01" "https://example.com/articles/42"
    "Timeout" "" "" bare_store (Some "log") = (Raises KeyError, bare_store, Some "log").
Proof.
  apply (record_failure_needs_fail_count "t1" "t2" "2026-01-01"
           "https://example.com/articles/42" "Timeout" "" "" bare_store (Some "log")
           [("success_count", PInt 3)]); reflexivity.
Defined.

(** X26: failures and successes are counted side by side.  On a
    well-formed store whose record for the URL's shape has a numeric
    [fail_count], a [record_failure] followed by a [save_pattern] for the
    same URL both return, and [find_pattern] then gives a record whose
    [fail_count] is the old one plus 1, whose [last_fail] is the time of
    the failure, whose [success_count] is the old one plus 1 and whose
    status is "active": a success does not reset the failure count. *)
Theorem success_keeps_failure_count t_fail t_saved today u error cause solution
    t_success t_created t_saved' data em lessons r c :
  well_formed (patterns em) = true →
  stored_record (netloc (urlparse u)) (_url_to_pattern u) (patterns em)
    = Some (PDict r) →
  dget "fail_count" r = Some c →
  is_number c = true →
  ∃ em1 log em2 merged,
    record_failure t_fail t_saved today u error cause solution em lessons =
      (Returns tt, em1, log) ∧
    save_pattern t_success t_created t_saved' u data em1 = (Returns tt, em2) ∧
    find_pattern u em2 = Returns (PDict merged) ∧
    py_add c (PInt 1) = Returns (default PNone (dget "fail_count" merged)) ∧
    dget "last_fail" merged = Some (PStr t_fail) ∧
    py_add (dget_or "success_count" (PInt 0) r) (PInt 1)
      = Returns (default PNone (dget "success_count" merged)) ∧
    dget "status" merged = Some (PStr "active").
Proof.
  intros Hwf Hs Hc Hnum. apply well_formed_good in Hwf.
  destruct (py_add_number c (PInt 1) Hnum eq_refl) as (c' & Hadd & _).
  destruct (count_failure_present t_fail t_saved _ _ em r c c' Hwf Hs Hc Hadd)
    as (em1 & Hret & Hs1 & _ & Hg1 & _).
  apply well_formed_good in Hg1.
  destruct (save_pattern_effect t_success t_created t_saved' u data em1 Hg1)
    as (em2 & existing & merged & n & total & Hsave & Hprev & Hmerge & Hs2 & _).
  unfold previous in Hprev. rewrite Hs1 in Hprev. simpl in Hprev.
  injection Hprev as <-.
  destruct (merge_fields _ _ _ _ _ Hmerge) as (Hsc & _ & Hf & Hlf & _ & _ & Hst & _).
  eexists em1, _, em2, merged. split_and!.
  - unfold record_failure. rewrite Hret. reflexivity.
  - exact Hsave.
  - by apply find_pattern_stored.
  - rewrite Hf. unfold dget_or.
    rewrite (dget_dset_ne "last_fail" "fail_count") by done.
    rewrite dget_dset_eq. exact Hadd.
  - rewrite Hlf. unfold dget_or. by rewrite dget_dset_eq.
  - rewrite <- Hsc. unfold dget_or.
    rewrite (dget_dset_ne "last_fail" "success_count") by done.
    by rewrite (dget_dset_ne "fail_count" "success_count") by done.
  - exact Hst.
Qed.

Lemma success_keeps_failure_count_witness :
  ∃ em1 log em2 merged,
    record_failure "t1" "t2" "2026-01-01" "https://example.com/articles/42"
      "Timeout" "" "" articles_store None = (Returns tt, em1, log) ∧
    save_pattern "t3" "t4" "t5" "https://example.com/articles/42" [] em1
      = (Returns tt, em2) ∧
    find_pattern "https://example.com/articles/42" em2 = Returns (PDict merged) ∧
    dget "fail_count" merged = Some (PInt 2) ∧
    dget "success_count" merged = Some (PInt 4).
Proof.
  destruct (success_keeps_failure_count "t1" "t2" "2026-01-01"
              "https://example.com/articles/42" "Timeout" "" "" "t3" "t4" "t5" []
              articles_store None
              [("description", PStr "articles"); ("success_count", PInt 3);
               ("fail_count", PInt 1); ("status", PStr "retired")] (PInt 1))
    as (em1 & log & em2 & merged & H1 & H2 & H3 & Hf & _ & Hsc & _);
    [reflexivity | reflexivity | reflexivity | reflexivity |].
  exists em1, log, em2, merged. split_and!; [exact H1 | exact H2 | exact H3 | |].
  - destruct (dget "fail_count" merged) as [x|]; simpl in Hf;
      vm_compute in Hf; [congruence | discriminate Hf].
  - destruct (dget "success_count" merged) as [x|]; simpl in Hsc;
      vm_compute in Hsc; [congruence | discriminate Hsc].
Defined.

(** ** The lessons file *)

Lemma strip_prefix_Some m s r : strip_prefix m s = Some r ↔ s = m +:+ r.
Proof.
  revert s. induction m as [|c m IH]; intros s; simpl.
  - split; [by intros [= ->] | by intros ->].
  - destruct s as [|d s]; [split; discriminate|].
    unfold char_eqb. destruct (Ascii.eqb_spec c d) as [->|Hne].
    + rewrite IH. split; [by intros -> | by intros [= ->]].
    + split; [discriminate | intros [= ? ?]; by subst].
Qed.

Lemma find_sub_eq m s :
  find_sub m s =
    match strip_prefix m s with
    | Some rest => Some (EmptyString, rest)
    | None =>
        match s with
        | EmptyString => None
        | String c s' =>
            match find_sub m s' with
            | Some (a, b) => Some (String c a, b)
            | None => None
            end
        end
    end.
Proof. by destruct s. Qed.

Lemma append_nil_l (x : string) : EmptyString +:+ x = x.
Proof. reflexivity. Qed.

Lemma append_cons (c : ascii) (a x : string) : String c a +:+ x = String c (a +:+ x).
Proof. reflexivity. Qed.

Lemma find_sub_Some m s a b : find_sub m s = Some (a, b) → first_split m s a b.
Proof.
  revert a. induction s as [|c s IH]; intros a; rewrite find_sub_eq;
    destruct (strip_prefix m _) as [r|] eqn:E; try discriminate.
  - intros [= <- <-]. apply strip_prefix_Some in E.
    split; [done|]. intros; simpl; lia.
  - intros [= <- <-]. apply strip_prefix_Some in E.
    split; [done|]. intros; simpl; lia.
  - destruct (find_sub m s) as [[a0 b0]|]; [|discriminate].
    intros [= <- <-]. destruct (IH a0 eq_refl) as [Hs Hmin].
    split; [by rewrite Hs at 1|].
    intros [|c' a'] b' H.
    + rewrite append_nil_l in H. apply strip_prefix_Some in H. congruence.
    + rewrite append_cons in H. injection H as -> H.
      specialize (Hmin _ _ H). simpl. lia.
Qed.

Lemma find_sub_None m s : find_sub m s = None → ¬ occurs m s.
Proof.
  induction s as [|c s IH]; rewrite find_sub_eq;
    destruct (strip_prefix m _) as [r|] eqn:E; try discriminate.
  - intros _ ([|c' a] & b & H).
    + rewrite append_nil_l in H. apply strip_prefix_Some in H. congruence.
    + rewrite append_cons in H. discriminate.
  - destruct (find_sub m s) as [[a0 b0]|]; [discriminate|].
    intros _ ([|c' a] & b & H).
    + rewrite append_nil_l in H. apply strip_prefix_Some in H. congruence.
    + rewrite append_cons in H. injection H as -> H.
      apply IH; [done|]. by exists a, b.
Qed.

Lemma append_inj_length a a1 x y :
  a +:+ x = a1 +:+ y → String.length a = String.length a1 → a = a1 ∧ x = y.
Proof.
  revert a1. induction a as [|c a IH]; intros [|c1 a1];
    rewrite ?append_nil_l, ?append_cons; simpl; try discriminate.
  - done.
  - intros [= -> H] [= Hlen]. destruct (IH _ H Hlen) as [-> ->]. done.
Qed.

Lemma first_split_find m s a b : first_split m s a b → find_sub m s = Some (a, b).
Proof.
  intros [Hs Hmin]. destruct (find_sub m s) as [[a1 b1]|] eqn:F.
  - apply find_sub_Some in F as [Hs1 Hmin1].
    pose proof (Hmin _ _ Hs1). pose proof (Hmin1 _ _ Hs).
    rewrite Hs in Hs1. destruct (append_inj_length _ _ _ _ Hs1) as [-> Hb]; [lia|].
    apply (inj (String.append m)) in Hb. by subst.
  - apply find_sub_None in F. destruct F. by exists a, b.
Qed.

Lemma not_occurs_find m s : ¬ occurs m s → find_sub m s = None.
Proof.
  intros Hno. destruct (find_sub m s) as [[a b]|] eqn:F; [|done].
  apply find_sub_Some in F as [Hs _]. destruct Hno. by exists a, b.
Qed.

(** X27: the lesson entry goes right after the marker line and nothing
    is lost.  When the lessons file is [a + marker + b] with this the
    first occurrence of the marker and no marker in [b], the new content
    of the file is [a + marker + entry + b]: the newest entry comes
    first, before the older ones. *)
Theorem lesson_goes_right_after_marker existing entry a b :
  first_split lessons_marker existing a b →
  ¬ occurs lessons_marker b →
  insert_lesson existing entry = a +:+ lessons_marker +:+ entry +:+ b.
Proof.
  intros Hsplit Hno. unfold insert_lesson.
  by rewrite (first_split_find _ _ _ _ Hsplit), (not_occurs_find _ _ Hno).
Qed.

Lemma lesson_goes_right_after_marker_witness :
  insert_lesson ("# Lessons " +:+ lessons_marker +:+ " old entry") " new entry"
    = "# Lessons " +:+ lessons_marker +:+ " new entry" +:+ " old entry".
Proof.
  apply (lesson_goes_right_after_marker _ " new entry" "# Lessons " " old entry").
  - apply find_sub_Some. reflexivity.
  - apply find_sub_None. reflexivity.
Defined.

(** X28: a second marker truncates the lessons file.  When the marker
    occurs again after its first occurrence, the file being
    [a + marker + mid + marker + rest], the new content is
    [a + marker + entry + mid]: the second marker and all the text after
    it are dropped from the file. *)
Theorem second_marker_truncates_lessons existing entry a mid rest :
  first_split lessons_marker existing a (mid +:+ lessons_marker +:+ rest) →
  first_split lessons_marker (mid +:+ lessons_marker +:+ rest) mid rest →
  insert_lesson existing entry = a +:+ lessons_marker +:+ entry +:+ mid.
Proof.
  intros H1 H2. unfold insert_lesson.
  by rewrite (first_split_find _ _ _ _ H1), (first_split_find _ _ _ _ H2).
Qed.

Lemma second_marker_truncates_lessons_witness :
  insert_lesson ("head " +:+ lessons_marker +:+ " first " +:+ lessons_marker +:+ " second")
    " new entry"
    = "head " +:+ lessons_marker +:+ " new entry" +:+ " first ".
Proof.
  apply (second_marker_truncates_lessons _ " new entry" "head " " first " " second").
  - apply find_sub_Some. reflexivity.
  - apply find_sub_Some. reflexivity.
Defined.

(** ** Shapes and numeric identifiers *)

Lemma sub_digits_skip sep d rest :
  str_forall is_digit d = true →
  sub_digits sep true (d +:+ rest) = sub_digits sep true rest.
Proof.
  induction d as [|c d IH]; simpl; [done|].
  intros [Hc Hd]%andb_prop. rewrite Hc. by apply IH.
Qed.

Lemma starts_with_digit_app pre x y :
  starts_with_digit x = starts_with_digit y →
  starts_with_digit (pre +:+ x) = starts_with_digit (pre +:+ y).
Proof. by destruct pre. Qed.

Lemma starts_with_digit_digits d rest :
  d ≠ EmptyString → str_forall is_digit d = true →
  starts_with_digit (d +:+ rest) = true.
Proof. destruct d as [|c d]; [done|]. simpl. by intros _ [-> _]%andb_prop. Qed.

(** The substitution does not see which digits follow the separator. *)
Lemma sub_digits_numeric_id sep skipping pre d1 d2 rest :
  is_digit sep = false →
  d1 ≠ EmptyString → str_forall is_digit d1 = true →
  d2 ≠ EmptyString → str_forall is_digit d2 = true →
  sub_digits sep skipping (pre +:+ String sep (d1 +:+ rest))
  = sub_digits sep skipping (pre +:+ String sep (d2 +:+ rest)).
Proof.
  intros Hsep Hn1 Hd1 Hn2 Hd2. revert skipping.
  induction pre as [|c pre IH]; intros skipping.
  - simpl. rewrite Hsep, andb_false_r. unfold char_eqb. rewrite Ascii.eqb_refl.
    rewrite !starts_with_digit_digits by done. simpl.
    by rewrite !sub_digits_skip.
  - simpl.
    rewrite (starts_with_digit_app pre (String sep (d1 +:+ rest))
               (String sep (d2 +:+ rest)) eq_refl).
    destruct (skipping && is_digit c); [apply IH|].
    destruct (char_eqb c sep && _); by rewrite IH.
Qed.



(** ** URL similarity *)

Lemma split_on_nonempty c s : split_on c s ≠ [].
Proof.
  destruct s as [|d s]; simpl; [done|].
  destruct (char_eqb d c); [done|]. by destruct (split_on c s).
Qed.

Lemma split_on_inj c s1 s2 : split_on c s1 = split_on c s2 → s1 = s2.
Proof.
  revert s2. induction s1 as [|d1 s1 IH]; intros [|d2 s2]; simpl; [done| | |].
  - pose proof (split_on_nonempty c s2).
    destruct (char_eqb d2 c); destruct (split_on c s2); by intros [=].
  - pose proof (split_on_nonempty c s1).
    destruct (char_eqb d1 c); destruct (split_on c s1); by intros [=].
  - unfold char_eqb.
    destruct (Ascii.eqb_spec d1 c) as [->|H1], (Ascii.eqb_spec d2 c) as [->|H2].
    + intros [= H]. by rewrite (IH _ H).
    + pose proof (split_on_nonempty c s2). destruct (split_on c s2); by intros [=].
    + pose proof (split_on_nonempty c s1). destruct (split_on c s1); by intros [=].
    + pose proof (split_on_nonempty c s1). pose proof (split_on_nonempty c s2).
      specialize (IH s2).
      destruct (split_on c s1) as [|h1 t1]; [done|].
      destruct (split_on c s2) as [|h2 t2]; [done|].
      intros [= -> -> ->]. by rewrite IH.
Qed.

Lemma count_same_cons a b l1 l2 :
  count_same (a :: l1) (b :: l2) =
    if decide (a = b) then S (count_same l1 l2) else count_same l1 l2.
Proof.
  unfold count_same. simpl zip. rewrite filter_cons. simpl.
  by destruct (decide (a = b)).
Qed.

Lemma count_same_le l1 l2 : (count_same l1 l2 ≤ length l1)%nat.
Proof.
  revert l2. induction l1 as [|a l1 IH]; intros [|b l2];
    try (unfold count_same; simpl; lia).
  rewrite count_same_cons. specialize (IH l2). destruct (decide (a = b)); simpl; lia.
Qed.

Lemma count_same_sym l1 l2 : count_same l1 l2 = count_same l2 l1.
Proof.
  revert l2. induction l1 as [|a l1 IH]; intros [|b l2]; try done.
  rewrite !count_same_cons, (IH l2).
  destruct (decide (a = b)), (decide (b = a)); congruence.
Qed.

Lemma count_same_full l1 l2 :
  length l1 = length l2 → (count_same l1 l2 = length l1 ↔ l1 = l2).
Proof.
  revert l2. induction l1 as [|a l1 IH]; intros [|b l2]; simpl; try done.
  intros [= Hlen]. rewrite count_same_cons.
  pose proof (count_same_le l1 l2).
  destruct (decide (a = b)) as [->|Hne].
  - split.
    + intros [= Hc]. f_equal. by apply IH.
    + intros [= Hl]. f_equal. by apply IH.
  - split; [lia | congruence].
Qed.

Lemma Qdiv_nat_range (k n : nat) :
  (k ≤ n)%nat → (0 < n)%nat →
  (0 <= inject_Z (Z.of_nat k) / inject_Z (Z.of_nat n) <= 1)%Q.
Proof.
  intros Hk Hn.
  assert (Hpos : (0 < inject_Z (Z.of_nat n))%Q).
  { change 0%Q with (inject_Z 0). rewrite <- Zlt_Qlt. lia. }
  split.
  - apply Qle_shift_div_l; [done|]. rewrite Qmult_0_l.
    change 0%Q with (inject_Z 0). rewrite <- Zle_Qle. lia.
  - apply Qle_shift_div_r; [done|]. rewrite Qmult_1_l. rewrite <- Zle_Qle. lia.
Qed.

Lemma Qdiv_nat_one (k n : nat) :
  (0 < n)%nat →
  (inject_Z (Z.of_nat k) / inject_Z (Z.of_nat n) == 1)%Q ↔ k = n.
Proof.
  intros Hn.
  assert (Hnz : ¬ (inject_Z (Z.of_nat n) == 0)%Q).
  { change 0%Q with (inject_Z 0). rewrite inject_Z_injective. lia. }
  split.
  - intros H.
    assert (H' : (inject_Z (Z.of_nat k) == inject_Z (Z.of_nat n))%Q).
    { rewrite <- (Qmult_div_r (inject_Z (Z.of_nat k)) (inject_Z (Z.of_nat n)) Hnz).
      rewrite H. apply Qmult_1_r. }
    unfold Qeq in H'. simpl in H'. lia.
  - intros ->. unfold Qdiv. by apply Qmult_inv_r.
Qed.


End ExperienceExtras.
